(** * conceptnet5.wiktparse.rules: a shallow embedding

    The semantic layer of the Wiktionary reader
    (src/conceptnet5/wiktparse/rules.py): the value types [LinkedText] and
    [EdgeInfo], [join_text], the [sense_num] and [link_template] semantic
    actions and the entry / section walker.

    Python values are modelled as follows.
    - [str] is [string] (a byte string; text is UTF-8 encoded);
    - a value that may be [None] is an [option];
    - a function that may raise returns a [result];
    - a [dict] whose iteration order matters is an association list in
      insertion order with unique keys;
    - the modules imported by rules.py whose source is not part of the
      development (conceptnet5.edges, conceptnet5.nodes, conceptnet5.uri,
      conceptnet5.util.language_codes) are the fields of the class
      [Imports], the generated parser is the class [Parser], and the rows of
      the sqlite title table are a field of the semantics object;
    - [str.strip] removes the white space of [str] in its UTF-8 encoding;
      [str.lower], whose tables cannot be written out, is a field of
      [Imports];
    - what the walker prints when it catches an exception is left out. *)

From Stdlib Require Import List String Ascii ZArith Lia Bool QArith.
From Stdlib Require Import DecimalString.
From Stdlib Require Import Sorted.
Import ListNotations.
Close Scope Q_scope.
Open Scope string_scope.

Set Implicit Arguments.

(** ** Exceptions and results *)

Inductive exn : Type :=
| TypeError
| ValueError
| KeyError (key : string)
| UnboundLocalError (name : string)
| AttributeError (attr : string)
| IndexError
| AssertionError
| FailedParse (msg : string).

Inductive result (A : Type) : Type :=
| Ok (a : A)
| Raise (e : exn).

Arguments Ok {A} a.
Arguments Raise {A} e.

Definition bind {A B : Type} (r : result A) (k : A -> result B) : result B :=
  match r with
  | Ok a => k a
  | Raise e => Raise e
  end.

Notation "x <- r ;; k" := (bind r (fun x => k))
  (at level 61, r at next level, right associativity).

Definition raises {A : Type} (r : result A) : bool :=
  match r with
  | Ok _ => false
  | Raise _ => true
  end.

(** [[f(x) for x in xs]] where [f] may raise: the first exception wins. *)
Fixpoint map_result {A B : Type} (f : A -> result B) (xs : list A)
  : result (list B) :=
  match xs with
  | [] => Ok []
  | x :: xs' =>
      y <- f x ;;
      ys <- map_result f xs' ;;
      Ok (y :: ys)
  end.

(** ** Python string operations used by rules.py *)

(** Truth value of an object that is [None] or a [str]. *)
Definition truthy (v : option string) : bool :=
  match v with
  | None => false
  | Some "" => false
  | Some _ => true
  end.

(** [a or b] where [b] is a [str]. *)
Definition or_str (a : option string) (b : string) : string :=
  match a with
  | Some s => if truthy a then s else b
  | None => b
  end.

(** [a or b] where [b] may be [None]. *)
Definition or_opt (a b : option string) : option string :=
  if truthy a then a else b.

(** [s.startswith(p)] *)
Fixpoint startswith (s p : string) : bool :=
  match p with
  | EmptyString => true
  | String a p' =>
      match s with
      | EmptyString => false
      | String b s' => Ascii.eqb a b && startswith s' p'
      end
  end.

(** [s[1:]] *)
Definition drop_first (s : string) : string :=
  match s with
  | EmptyString => EmptyString
  | String _ s' => s'
  end.

(** [sub in s] for two strings: [sub] occurs in [s]. *)
Definition str_contains (sub s : string) : bool :=
  match String.index 0 sub s with
  | Some _ => true
  | None => false
  end.

(** [x in (a, b, ...)] for a tuple of strings. *)
Definition in_tuple (x : string) (t : list string) : bool :=
  existsb (String.eqb x) t.

(** The string of the bytes with the given numbers. *)
Definition bytes (l : list nat) : string :=
  fold_right (fun n s => String (ascii_of_nat n) s) EmptyString l.

(** The characters that [str.strip()] removes, each in its UTF-8 encoding:
    the code points for which [str.isspace()] holds, which are
    U+0009-000D, U+001C-001F, U+0020, U+0085, U+00A0, U+1680, U+2000-200A,
    U+2028, U+2029, U+202F, U+205F and U+3000. *)
Definition whitespace : list string :=
  map bytes
    [ [9]; [10]; [11]; [12]; [13]; [28]; [29]; [30]; [31]; [32];
      [194; 133]; [194; 160]; [225; 154; 128];
      [226; 128; 128]; [226; 128; 129]; [226; 128; 130]; [226; 128; 131];
      [226; 128; 132]; [226; 128; 133]; [226; 128; 134]; [226; 128; 135];
      [226; 128; 136]; [226; 128; 137]; [226; 128; 138];
      [226; 128; 168]; [226; 128; 169]; [226; 128; 175];
      [226; 129; 159]; [227; 128; 128] ].

(** [s] without its prefix [p]; [None] when [s] does not start with [p]. *)
Fixpoint removeprefix (p s : string) : option string :=
  match p with
  | EmptyString => Some s
  | String a p' =>
      match s with
      | EmptyString => None
      | String b s' => if Ascii.eqb a b then removeprefix p' s' else None
      end
  end.

(** [s] without its first character, when that is one of [chars]. *)
Fixpoint drop_leading (chars : list string) (s : string) : option string :=
  match chars with
  | [] => None
  | c :: rest =>
      match removeprefix c s with
      | Some r => Some r
      | None => drop_leading rest s
      end
  end.

(** Removes leading characters of [chars], at most [fuel] of them. *)
Fixpoint lstrip_any (chars : list string) (fuel : nat) (s : string) : string :=
  match fuel with
  | O => s
  | S fuel' =>
      match drop_leading chars s with
      | Some r => lstrip_any chars fuel' r
      | None => s
      end
  end.

(** The bytes of a string in reverse order. *)
Definition str_rev (s : string) : string :=
  string_of_list_ascii (rev (list_ascii_of_string s)).

(** [s.lstrip()]: every removal takes at least one byte, so the length of
    [s] is fuel enough. *)
Definition lstrip (s : string) : string :=
  lstrip_any whitespace (String.length s) s.

(** [s.rstrip()]: the same from the end, on the reversed bytes. *)
Definition rstrip (s : string) : string :=
  str_rev (lstrip_any (map str_rev whitespace) (String.length s) (str_rev s)).

(** Removes the trailing characters that satisfy [p]. *)
Fixpoint rstrip_by (p : ascii -> bool) (s : string) : string :=
  match s with
  | EmptyString => EmptyString
  | String c s' =>
      match rstrip_by p s' with
      | EmptyString => if p c then EmptyString else String c EmptyString
      | r => String c r
      end
  end.

(** [s.strip()] *)
Definition strip (s : string) : string := rstrip (lstrip s).

(** [s.rstrip('\n')] *)
Definition newline : ascii := ascii_of_nat 10.
Definition rstrip_newlines (s : string) : string :=
  rstrip_by (Ascii.eqb newline) s.

(** [''.join(texts)] *)
Definition join_empty (texts : list string) : string := String.concat "" texts.

(** [str(i)] for an [int]. *)
Definition str_of_int (i : Z) : string := NilZero.string_of_int (Z.to_int i).

Definition is_digit (c : ascii) : bool :=
  let n := nat_of_ascii c in ((48 <=? n) && (n <=? 57))%nat.

Fixpoint all_digits (s : string) : bool :=
  match s with
  | EmptyString => true
  | String c s' => is_digit c && all_digits s'
  end.

(** [int(s)] on the strings the [num] token delivers (one or two decimal
    digits and possibly a letter): the value of a non-empty string of
    digits, [ValueError] otherwise. *)
Definition int_of_str (s : string) : result Z :=
  match s with
  | EmptyString => Raise ValueError
  | _ =>
      if all_digits s then
        match NilEmpty.uint_of_string s with
        | Some u => Ok (Z.of_uint u)
        | None => Raise ValueError
        end
      else Raise ValueError
  end.

(** [range(a, b)] *)
Definition range (a b : Z) : list Z :=
  map (fun k => (a + Z.of_nat k)%Z) (seq 0 (Z.to_nat (b - a))).

(** [sorted(xs)] on a list of strings: a stable insertion sort by the
    code-point order of [str]. *)
Fixpoint insert_sorted (x : string) (xs : list string) : list string :=
  match xs with
  | [] => [x]
  | y :: ys => if String.leb x y then x :: xs else y :: insert_sorted x ys
  end.

Definition sorted (xs : list string) : list string :=
  fold_right insert_sorted [] xs.

(** ** The imported collaborators

    rules.py imports [make_edge], [normalized_concept_uri], [join_uri],
    [Licenses], [BAD_NAMES_FOR_THINGS] and [ENGLISH_NAME_TO_CODE]; their
    modules are not part of this development, so they are taken as the
    fields of a class.  [ENGLISH_NAME_TO_CODE] is given by its [.get].
    With them stands the one built-in operation of [str] that cannot be
    written out here, [lower]. *)

(** The keyword arguments of [make_edge] as [complete_edge] passes them. *)
Record EdgeArgs : Type := {
  edge_rel : string;
  edge_start : string;
  edge_end : string;
  edge_dataset : string;
  edge_license : string;
  edge_sources : list string;
  edge_weight : Q
}.

Class Imports : Type := {
  Edge : Type;
  make_edge : EdgeArgs -> Edge;
  (** [normalized_concept_uri lang text more] *)
  normalized_concept_uri : option string -> string -> list (option string) -> string;
  (** [join_uri] of a sequence of pieces *)
  join_uri : list string -> string;
  Licenses_cc_sharealike : string;
  BAD_NAMES_FOR_THINGS : list string;
  ENGLISH_NAME_TO_CODE_get : string -> option string;
  (** [s.lower()]: the case mapping of [str], which follows the Unicode
      tables of the interpreter *)
  str_lower : string -> string
}.

(** [x in BAD_NAMES_FOR_THINGS] for [x] a [str] or [None]: the collection
    holds strings, so [None] is not a member. *)
Definition in_BAD_NAMES_FOR_THINGS `{Imports} (x : option string) : bool :=
  match x with
  | None => false
  | Some s => in_tuple s BAD_NAMES_FOR_THINGS
  end.

Definition language_code `{Imports} (language_name : string) : option string :=
  ENGLISH_NAME_TO_CODE_get language_name.

(** ** EdgeInfo *)

Module EdgeInfo.

Record t : Type := mk {
  language : option string;
  target : string;
  sense : option string;
  rel : option string
}.

(** [EdgeInfo(language, target, sense=None, rel=None)]: a [None] target
    raises [TypeError]. *)
Definition init (language target sense rel : option string) : result t :=
  match target with
  | None => Raise TypeError
  | Some tg => Ok (mk language tg sense rel)
  end.

Definition set_language (self : t) (language : option string) : t :=
  mk language (target self) (sense self) (rel self).

Definition set_default_language (self : t) (language : option string) : t :=
  if truthy (EdgeInfo.language self) then self
  else mk language (target self) (sense self) (rel self).

Definition set_target (self : t) (target : string) : t :=
  mk (language self) target (sense self) (rel self).

Definition set_sense (self : t) (sense : option string) : t :=
  mk (language self) (target self) sense (rel self).

Definition set_rel (self : t) (rel : option string) : t :=
  mk (language self) (target self) (sense self) rel.

(** The first lines of [complete_edge]: the sense that goes into the
    start URI. *)
Definition complete_edge_sense `{Imports} (self : t) (headpos : option string)
  : option string :=
  let sense :=
    match headpos with
    | None => None
    | Some _ => EdgeInfo.sense self
    end in
  if in_BAD_NAMES_FOR_THINGS sense then None else sense.

(** The keyword arguments [complete_edge] hands to [make_edge]. *)
Definition complete_edge_kwargs `{Imports} (self : t)
    (rule_name headlang headword : string) (headpos : option string) : EdgeArgs :=
  let sense := complete_edge_sense self headpos in
  let start_uri :=
    normalized_concept_uri (Some headlang) headword [headpos; sense] in
  let end_uri := normalized_concept_uri (language self) (target self) [] in
  let rel := or_str (EdgeInfo.rel self) "RelatedTo" in
  let '(rel, start_uri, end_uri) :=
    if startswith rel "~" then (drop_first rel, end_uri, start_uri)
    else (rel, start_uri, end_uri) in
  let rel_uri := join_uri ["/r"; rel] in
  {|
    edge_rel := rel_uri;
    edge_start := start_uri;
    edge_end := end_uri;
    edge_dataset := "/d/wiktionary/en/" ++ headlang;
    edge_license := Licenses_cc_sharealike;
    edge_sources := [join_uri ["/s/web/en.wiktionary.org/wiki"; headword];
                     join_uri ["/s/rule"; rule_name]];
    edge_weight := 1%Q
  |}.

Definition complete_edge `{Imports} (self : t)
    (rule_name headlang headword : string) (headpos : option string) : Edge :=
  make_edge (complete_edge_kwargs self rule_name headlang headword headpos).

End EdgeInfo.

Abbreviation EdgeInfo := EdgeInfo.t.

(** ** LinkedText *)

Module LinkedText.

(** [text] is a [str], or [None] (as [external_link] builds it for a
    link without a label, and as [join_text] checks for). *)
Record t : Type := mk {
  text : option string;
  links : list EdgeInfo
}.

(** The first argument of the constructor: a [LinkedText] or a text. *)
Inductive text_arg : Type :=
| OfLinked (lt : t)
| OfText (s : option string).

(** [LinkedText(text, links)] *)
Definition init (text : text_arg) (links : list EdgeInfo) : t :=
  match text with
  | OfLinked lt => mk (LinkedText.text lt) (LinkedText.links lt ++ links)%list
  | OfText s => mk s links
  end.

(** [a + b] on two objects that are [str] or [None]: [None] raises
    [TypeError]. *)
Definition str_add (a b : option string) : result string :=
  match a, b with
  | Some x, Some y => Ok (x ++ y)
  | _, _ => Raise TypeError
  end.

(** [self + other] *)
Definition add (self other : t) : result t :=
  t1 <- str_add (text self) (Some " ") ;;
  text <- str_add (Some t1) (text other) ;;
  let links := (links self ++ links other)%list in
  Ok (init (OfText (Some text)) links).

End LinkedText.

Abbreviation LinkedText := LinkedText.t.


(** ** Values handed up the parse tree *)

(** Keys of a template's argument dictionary: positional arguments have
    [int] keys, named arguments have [str] keys. *)
Inductive key : Type :=
| IntKey (n : Z)
| StrKey (s : string).

Definition key_eqb (a b : key) : bool :=
  match a, b with
  | IntKey m, IntKey n => Z.eqb m n
  | StrKey s, StrKey u => String.eqb s u
  | _, _ => false
  end.

(** A [dict] in insertion order. *)
Definition dict (V : Type) : Type := list (key * V).

Fixpoint dict_get {V : Type} (k : key) (d : dict V) : option V :=
  match d with
  | [] => None
  | (k', v) :: d' => if key_eqb k k' then Some v else dict_get k d'
  end.

(** [d[k] = v]: replaces the value of a present key where it stands,
    appends an absent one. *)
Fixpoint dict_set {V : Type} (k : key) (v : V) (d : dict V) : dict V :=
  match d with
  | [] => [(k, v)]
  | (k', v') :: d' =>
      if key_eqb k k' then (k', v) :: d' else (k', v') :: dict_set k v d'
  end.

(** The value of a key in the dictionary [template] returns: the parsed
    text of an argument (or [None]), or the template's name under key 0. *)
Inductive template_value : Type :=
| ArgValue (v : option LinkedText)
| TemplateName (name : string).

(** What a semantic action may return to the rule above it. *)
Inductive ast_value : Type :=
| VNone
| VStr (s : string)
| VLinked (lt : LinkedText)
| VDict (d : dict template_value)
| VEdgeInfo (e : EdgeInfo)
| VList (l : list EdgeInfo).

(** ** join_text *)

(** The loop of [join_text] over the items, with its two accumulators. *)
Fixpoint join_text_items (lst : list ast_value) (texts : list string)
    (links : list EdgeInfo) : result (list string * list EdgeInfo) :=
  match lst with
  | [] => Ok (texts, links)
  | item :: rest =>
      match item with
      | VNone => join_text_items rest texts links
      | VStr s => join_text_items rest (texts ++ [s])%list links
      | VLinked lt =>
          let texts :=
            match LinkedText.text lt with
            | Some s => (texts ++ [s])%list
            | None => texts
            end in
          join_text_items rest texts (links ++ LinkedText.links lt)%list
      | VDict _ => join_text_items rest texts links
      | VEdgeInfo _ | VList _ => Raise TypeError
      end
  end.

Definition join_text (lst : option (list ast_value)) : result (option LinkedText) :=
  match lst with
  | None => Ok None
  | Some lst =>
      r <- join_text_items lst [] [] ;;
      let '(texts, links) := r in
      let text := join_empty texts in
      Ok (Some (LinkedText.init (LinkedText.OfText (Some text)) links))
  end.

(** ** sense_num *)

Record num_range : Type := {
  range_start : string;
  range_end : string
}.

(** The AST of the [sense_num] rule: [first] is always there, the other
    groups are [None] when the rule did not match them. *)
Record sense_num_ast : Type := {
  first : string;
  last : option string;
  next : option (list string);
  next_range : option (list num_range)
}.

Definition expand_range (range_ast : num_range) : result (list string) :=
  start <- int_of_str (range_start range_ast) ;;
  end_ <- int_of_str (range_end range_ast) ;;
  Ok (map str_of_int (range start (end_ + 1))).

(** [for elem in next_range: num_list.extend(expand_range(elem))] *)
Fixpoint extend_ranges (num_list : list string) (elems : list num_range)
  : result (list string) :=
  match elems with
  | [] => Ok num_list
  | elem :: rest =>
      r <- expand_range elem ;;
      extend_ranges (num_list ++ r)%list rest
  end.

Definition sense_num (ast : sense_num_ast) : result (list string) :=
  let num_list := [first ast] in
  num_list <-
    (if truthy (last ast) then
       match last ast with
       | Some l => Ok (num_list ++ [l])%list
       | None => Ok num_list
       end
     else
       let num_list :=
         match next ast with
         | Some ns => (num_list ++ ns)%list
         | None => num_list
         end in
       match next_range ast with
       | Some elems => extend_ranges num_list elems
       | None => Ok num_list
       end) ;;
  Ok (sorted num_list).


(** ** The semantics object *)

(** [ConceptNetWiktionarySemantics]: the language of the Wiktionary
    edition, the trace flag and the rows [(language, title)] of the
    [titles] table behind the sqlite connection. *)
Record Semantics : Type := {
  default_language : string;
  trace : bool;
  titledb : list (string * string)
}.

(** ** link_template *)

(** [defaultdict(lambda: None)] holding the text of each argument.
    Reading an absent key returns [None] and stores the key. *)
Definition defaultdict : Type := dict (option string).

Definition dd_get (k : key) (args : defaultdict) : option string * defaultdict :=
  match dict_get k args with
  | Some v => (v, args)
  | None => (None, (args ++ [(k, None)])%list)
  end.

(** [c and args[k]] as a condition: the argument is read only when [c]
    holds. *)
Definition and_arg (c : bool) (k : key) (args : defaultdict) : bool * defaultdict :=
  if c then let '(v, args) := dd_get k args in (truthy v, args)
  else (false, args).

(** The loop that fills [args] and [links] from the parsed arguments. *)
Fixpoint collect_args (items : dict (option LinkedText)) (args : defaultdict)
    (links : list EdgeInfo) : defaultdict * list EdgeInfo :=
  match items with
  | [] => (args, links)
  | (k, None) :: rest => collect_args rest args links
  | (k, Some value) :: rest =>
      collect_args rest (dict_set k (LinkedText.text value) args)
        (links ++ LinkedText.links value)%list
  end.

(** [max([0] + [arg for arg in args if isinstance(arg, int)])] *)
Definition last_int_key (args : defaultdict) : Z :=
  fold_left
    (fun m kv => match fst kv with IntKey n => Z.max m n | StrKey _ => m end)
    args 0%Z.

(** The loop [for argnum in range(1, 4)] of the compound templates. *)
Fixpoint derived_links (language : option string) (argnums : list Z)
    (args : defaultdict) (links : list EdgeInfo) : result (list EdgeInfo) :=
  match argnums with
  | [] => Ok links
  | argnum :: rest =>
      let '(v, args) := dd_get (IntKey argnum) args in
      if truthy v then
        let '(tg, args) := dd_get (IntKey argnum) args in
        e <- EdgeInfo.init language tg None (Some "DerivedFrom") ;;
        derived_links language rest args (links ++ [e])%list
      else derived_links language rest args links
  end.

Record link_template_ast : Type := {
  linktype : string;
  subtypes : option (list string);
  args : dict (option LinkedText)
}.

(** Truth value of [ast['subtypes']]: [None] and the empty list are false. *)
Definition truthy_list {A : Type} (l : option (list A)) : bool :=
  match l with
  | Some (_ :: _) => true
  | _ => false
  end.

(** [ast['subtypes'][0]] *)
Definition first_subtype (l : option (list string)) : result string :=
  match l with
  | None => Raise TypeError
  | Some [] => Raise IndexError
  | Some (s :: _) => Ok s
  end.

Definition link_template (self : Semantics) (ast : link_template_ast)
  : result LinkedText :=
  let '(args, links) := collect_args (args ast) [] [] in
  let text := Some "" in
  let linktype := linktype ast in
  let '(c, args) :=
    and_arg ((linktype =? "l") && truthy_list (subtypes ast)) (IntKey 1) args in
  if c then
    s0 <- first_subtype (subtypes ast) ;;
    let language := Some (strip s0) in
    let '(target, args) := dd_get (IntKey 1) args in
    e <- EdgeInfo.init language target None None ;;
    Ok (LinkedText.init (LinkedText.OfText target) [e])
  else
  let '(c, args) := and_arg (in_tuple linktype ["l"; "term/t"]) (IntKey 2) args in
  if c then
    let '(language, args) := dd_get (IntKey 1) args in
    let '(target, args) := dd_get (IntKey 2) args in
    let '(a3, args) := dd_get (IntKey 3) args in
    let text := or_opt a3 target in
    e <- EdgeInfo.init language target None None ;;
    Ok (LinkedText.init (LinkedText.OfText text) [e])
  else
  let '(c, args) := and_arg (linktype =? "term") (IntKey 1) args in
  if c then
    let '(language, args) := dd_get (StrKey "lang") args in
    let '(target, args) := dd_get (IntKey 1) args in
    let '(a2, args) := dd_get (IntKey 2) args in
    let text := or_opt a2 target in
    e <- EdgeInfo.init language target None None ;;
    Ok (LinkedText.init (LinkedText.OfText text) [e])
  else
  let '(c, args) := and_arg (linktype =? "ja-l") (IntKey 1) args in
  if c then
    let language := Some "ja" in
    let '(target, args) := dd_get (IntKey 1) args in
    e <- EdgeInfo.init language target None None ;;
    Ok (LinkedText.init (LinkedText.OfText target) [e])
  else
  let '(c, args) := and_arg (linktype =? "ko-inline") (IntKey 1) args in
  if c then
    let language := Some "ko" in
    let '(target, args) := dd_get (IntKey 1) args in
    e <- EdgeInfo.init language target None None ;;
    Ok (LinkedText.init (LinkedText.OfText target) [e])
  else
  let '(c, args) :=
    and_arg (in_tuple linktype ["back-form"; "clipping"; "-er"]) (IntKey 1) args in
  if c then
    let '(lang, args) := dd_get (StrKey "lang") args in
    let language := Some (or_str lang (default_language self)) in
    let '(a1, args) := dd_get (IntKey 1) args in
    e <- EdgeInfo.init language a1 None (Some "DerivedFrom") ;;
    Ok (LinkedText.init (LinkedText.OfText text) [e])
  else
  (* [linktype in ('borrowing')]: the parentheses make no tuple, so this
     is the substring test on the string 'borrowing'. *)
  let '(c, args) := and_arg (str_contains linktype "borrowing") (IntKey 2) args in
  if c then
    let '(a1, args) := dd_get (IntKey 1) args in
    let '(a2, args) := dd_get (IntKey 2) args in
    e <- EdgeInfo.init a1 a2 None (Some "DerivedFrom") ;;
    Ok (LinkedText.init (LinkedText.OfText text) [e])
  else
  if in_tuple linktype ["blend"; "calque"; "compound"; "confix"; "prefix"; "suffix"]
  then
    let '(lang, args) := dd_get (StrKey "lang") args in
    let language := Some (or_str lang (default_language self)) in
    let links := [] in
    let '(c, args) := and_arg (in_tuple linktype ["prefix"; "confix"]) (IntKey 1) args in
    args <-
      (if c then
         let '(a1, args) := dd_get (IntKey 1) args in
         v <- LinkedText.str_add a1 (Some "-") ;;
         Ok (dict_set (IntKey 1) (Some v) args)
       else Ok args) ;;
    let '(c, args) := and_arg (linktype =? "suffix") (IntKey 2) args in
    args <-
      (if c then
         let '(a2, args) := dd_get (IntKey 2) args in
         v <- LinkedText.str_add (Some "-") a2 ;;
         Ok (dict_set (IntKey 2) (Some v) args)
       else Ok args) ;;
    args <-
      (if linktype =? "confix" then
         let lastarg := last_int_key args in
         if (2 <=? lastarg)%Z then
           let '(al, args) := dd_get (IntKey lastarg) args in
           v <- LinkedText.str_add (Some "-") al ;;
           Ok (dict_set (IntKey lastarg) (Some v) args)
         else Ok args
       else Ok args) ;;
    links <- derived_links language [1; 2; 3]%Z args links ;;
    Ok (LinkedText.init (LinkedText.OfText text) links)
  else
  let '(c, args) := and_arg (linktype =? "etycomp") (IntKey 2) args in
  if c then
    let '(l1, args) := dd_get (StrKey "lang1") args in
    let lang1 := or_str l1 (default_language self) in
    let '(l2, args) := dd_get (StrKey "lang2") args in
    let '(l1', args) := dd_get (StrKey "lang1") args in
    let lang2 := or_str (or_opt l2 l1') (default_language self) in
    let '(a1, args) := dd_get (IntKey 1) args in
    e1 <- EdgeInfo.init (Some lang1) a1 None (Some "EtymologicallyDerivedFrom") ;;
    let '(a2, args) := dd_get (IntKey 2) args in
    e2 <- EdgeInfo.init (Some lang2) a2 None (Some "EtymologicallyDerivedFrom") ;;
    Ok (LinkedText.init (LinkedText.OfText text) [e1; e2])
  else
    Ok (LinkedText.init (LinkedText.OfText text) links).


(** ** The heading tables *)

(** A [dict] with [str] keys. *)
Definition table (V : Type) : Type := list (string * V).

Fixpoint table_get {V : Type} (k : string) (d : table V) : option V :=
  match d with
  | [] => None
  | (k', v) :: d' => if String.eqb k k' then Some v else table_get k d'
  end.

Definition POS_HEADINGS : table (table string) :=
  [ ("en", [ ("Noun", "n"); ("Proper noun", "n"); ("Verb", "v");
             ("Adjective", "a"); ("Adverb", "r") ]);
    ("de", [ ("Substantiv", "n"); ("Eigenname", "n"); ("Nachname", "n");
             ("Vorname", "n"); ("Toponym", "n"); ("Verb", "v");
             ("Adjektiv", "a"); ("Adverb", "r") ]) ].

Definition SKIPPED_LANGUAGES : list string :=
  ["Lojban"; "Translingual"; "American Sign Language"].

(** Heading to [(rule, relation)]; either may be [None]. *)
Definition RULES_AND_RELATIONS_MAP : table (table (option string * option string)) :=
  [ ("en",
     [ ("Translations", (Some "translation_section", None));
       ("Synonyms", (Some "link_section", Some "Synonym"));
       ("Antonyms", (Some "link_section", Some "Antonym"));
       ("Hypernyms", (Some "link_section", Some "IsA"));
       ("Hyponyms", (Some "link_section", Some "~IsA"));
       ("Holonyms", (Some "link_section", Some "PartOf"));
       ("Meronyms", (Some "link_section", Some "PartOf"));
       ("Derived terms", (Some "link_section", Some "~DerivedFrom"));
       ("Descendants", (Some "link_section", Some "~DerivedFrom"));
       ("Compounds", (Some "link_section", Some "~CompoundDerivedFrom"));
       ("Related terms", (Some "link_section", Some "RelatedTo"));
       ("See also", (Some "link_section", Some "RelatedTo"));
       ("Pronunciation", (None, None));
       ("Anagrams", (None, None));
       ("Statistics", (None, None));
       ("References", (None, None));
       ("Quotations", (None, None));
       ("Romanization", (None, None));
       ("Usage notes", (None, None)) ]);
    ("de",
     [ ("Bedeutungen", (Some "definition_section_de", None));
       ("Übersetzungen", (Some "translation_section_de", None));
       ("Herkunft", (Some "etymology_section", Some "EtymologicallyDerivedFrom"));
       ("Ähnlichkeiten", (Some "link_section", Some "RelatedTo"));
       ("Sinnverwandte Wörter", (Some "link_section", Some "RelatedTo"));
       ("Gegenwörter", (Some "link_section", Some "Antonym"));
       ("Synonyme", (Some "link_section", Some "Synonym"));
       ("Oberbegriffe", (Some "link_section", Some "IsA"));
       ("Unterbegriffe", (Some "link_section", Some "~IsA"));
       ("Wortbildungen", (Some "link_section", Some "~DerivedFrom")) ]) ].

(** ** The walker *)

(** The generated parser ([wiktionaryParser]) run with the semantics
    object as its callback: [parser_parse self text rule_name] is what
    [self.parse(text, rule_name, trace=self.trace)] returns, or the
    exception it raises. *)
Class Parser : Type := {
  parser_parse : Semantics -> string -> string -> result (list ast_value)
}.

(** A section of a structured entry: heading, text and subsections. *)
#[local] Unset Elimination Schemes.
Inductive Section_ : Type :=
| mkSection (heading text : string) (sections : list Section_).
#[local] Set Elimination Schemes.

Record Entry : Type := {
  entry_language : string;
  entry_title : string;
  entry_sections : list Section_
}.

Definition parse `{Parser} (self : Semantics) (text rule_name : string)
  : result (list ast_value) :=
  parser_parse self text rule_name.

Definition _get_rule_for_heading (self : Semantics) (heading : string)
  : option string * option string :=
  match table_get (default_language self) RULES_AND_RELATIONS_MAP with
  | None => (None, None)
  | Some rules =>
      let defaults := (None, None) in
      if (default_language self =? "en") && startswith heading "Etymology" then
        (Some "etymology_section", Some "EtymologicallyDerivedFrom")
      else
        let defaults :=
          if default_language self =? "en" then (Some "definition_section", None)
          else defaults in
        match table_get heading rules with
        | Some r => r
        | None => defaults
        end
  end.

(** [select * from titles where language=? and title=?] has a row. *)
Definition check_titledb `{Imports} (self : Semantics) (language title : string)
  : bool :=
  existsb (fun row => (fst row =? language) && (snd row =? str_lower title))
    (titledb self).

Fixpoint disambiguate_language `{Imports} (self : Semantics)
    (options : list string) (title : string) : option string :=
  match options with
  | [] => None
  | option :: rest =>
      if check_titledb self option title then Some option
      else disambiguate_language self rest title
  end.

(** An item of the parsed list used as an [EdgeInfo]: any other object
    has none of its attributes. *)
Definition as_EdgeInfo (attr : string) (v : ast_value) : result EdgeInfo :=
  match v with
  | VEdgeInfo e => Ok e
  | _ => Raise (AttributeError attr)
  end.

(** The local variable [language] of [parse_structured_section]: it is
    bound only on the path of the definition rules. *)
Inductive language_local : Type :=
| Unbound
| BoundTuple (options : list string)
| BoundStr (s : string).

Definition definition_rules : list string :=
  ["definition_section"; "definition_section_de"].

(** The body of [parse_structured_section] for the section's own text:
    everything before the loop over the subsections. *)
Definition section_edges `{Imports} `{Parser} (self : Semantics)
    (text heading headlang headword : string) (headpos : option string)
  : result (list Edge) :=
  let edges := [] in
  let '(rule, rel) := _get_rule_for_heading self heading in
  let language :=
    match rule with
    | Some r =>
        if in_tuple r definition_rules
        then BoundTuple [default_language self; headlang]
        else Unbound
    | None => Unbound
    end in
  match rule with
  | Some rule =>
      let text := rstrip_newlines text ++ String newline "" in
      parsed <- parse self text rule ;;
      edge_info <-
        match rel with
        | Some _ =>
            map_result
              (fun v => ei <- as_EdgeInfo "set_rel" v ;;
                        Ok (VEdgeInfo (EdgeInfo.set_rel ei rel)))
              parsed
        | None => Ok parsed
        end ;;
      edge_info <-
        match language with
        | Unbound => Raise (UnboundLocalError "language")
        | BoundTuple options =>
            map_result
              (fun v =>
                 ei <- as_EdgeInfo "set_default_language" v ;;
                 Ok (EdgeInfo.set_default_language ei
                       (disambiguate_language self options (EdgeInfo.target ei))))
              edge_info
        | BoundStr l =>
            map_result
              (fun v =>
                 ei <- as_EdgeInfo "set_default_language" v ;;
                 Ok (EdgeInfo.set_default_language ei (Some l)))
              edge_info
        end ;;
      Ok (edges ++
          map (fun ei => EdgeInfo.complete_edge ei rule headlang headword headpos)
            (filter
               (fun ei =>
                  negb (in_BAD_NAMES_FOR_THINGS (Some (EdgeInfo.target ei)))
                  && match EdgeInfo.language ei with
                     | Some _ => true
                     | None => false
                     end)
               edge_info))%list
  | None => Ok edges
  end.

Fixpoint parse_structured_section `{Imports} `{Parser} (self : Semantics)
    (structure : Section_) (headlang headword : string)
    (headpos : option string) {struct structure} : result (list Edge) :=
  match structure with
  | mkSection heading text sections =>
      match table_get headlang POS_HEADINGS with
      | None => Raise (KeyError headlang)
      | Some pos_headings =>
          let headpos :=
            match table_get heading pos_headings with
            | Some pos =>
                match headpos with
                | None => Some pos
                | Some _ => headpos
                end
            | None => headpos
            end in
          edges <- section_edges self text heading headlang headword headpos ;;
          (fix subsections (l : list Section_) (edges : list Edge)
             : result (list Edge) :=
             match l with
             | [] => Ok edges
             | section :: rest =>
                 es <- parse_structured_section self section headlang headword
                         headpos ;;
                 subsections rest (edges ++ es)%list
             end) sections edges
      end
  end.

(** The loop of [parse_structured_entry] over the top-level sections:
    an exception of a section is caught (and printed) and counted. *)
Fixpoint entry_sections_loop `{Imports} `{Parser} (self : Semantics)
    (sections : list Section_) (langcode title : string)
    (edges : list Edge) (failures : nat) : list Edge * nat :=
  match sections with
  | [] => (edges, failures)
  | section :: rest =>
      match parse_structured_section self section langcode title None with
      | Ok es =>
          entry_sections_loop self rest langcode title (edges ++ es)%list failures
      | Raise _ =>
          entry_sections_loop self rest langcode title edges (failures + 1)
      end
  end.

Definition parse_structured_entry `{Imports} `{Parser} (self : Semantics)
    (structure : Entry) : result (list Edge) :=
  let edges := [] in
  if in_tuple (entry_language structure) SKIPPED_LANGUAGES then Ok []
  else
    match language_code (entry_language structure) with
    | None => Ok []
    | Some langcode =>
        let failures := 0 in
        let '(edges, failures) :=
          entry_sections_loop self (entry_sections structure) langcode
            (entry_title structure) edges failures in
        if (failures <=? 1)%nat then Ok edges else Raise AssertionError
    end.


(** ** Vocabulary of the statements *)

(** The text of argument [k] of a template: the text of the value the
    argument map holds for [k]; [None] for an absent argument and for one
    without a value. *)
Definition arg_text (ast : link_template_ast) (k : key) : option string :=
  match dict_get k (args ast) with
  | Some (Some value) => LinkedText.text value
  | _ => None
  end.

(** The links inside the values of the arguments, in the order of the
    argument map. *)
Definition arg_links (ast : link_template_ast) : list EdgeInfo :=
  flat_map
    (fun kv =>
       match snd kv with
       | Some value => LinkedText.links value
       | None => []
       end)
    (args ast).

(** The argument that the branch of the template tests is absent or empty:
    argument 2 for [l] (and argument 1 if it has subtypes), [term/t],
    [borrowing] and [etycomp]; argument 1 for [term], [ja-l], [ko-inline],
    [back-form], [clipping] and [-er]. *)
Definition required_argument_missing (ast : link_template_ast) : bool :=
  let lt := linktype ast in
  if lt =? "l" then
    negb (truthy_list (subtypes ast) && truthy (arg_text ast (IntKey 1)))
    && negb (truthy (arg_text ast (IntKey 2)))
  else if in_tuple lt ["term/t"; "borrowing"; "etycomp"] then
    negb (truthy (arg_text ast (IntKey 2)))
  else if in_tuple lt ["term"; "ja-l"; "ko-inline"; "back-form"; "clipping"; "-er"]
  then negb (truthy (arg_text ast (IntKey 1)))
  else false.

(** The items [join_text] accepts: [None], a string, a [LinkedText] or
    the dictionary of an unhandled template. *)
Definition joinable (item : ast_value) : bool :=
  match item with
  | VNone | VStr _ | VLinked _ | VDict _ => true
  | VEdgeInfo _ | VList _ => false
  end.

(** The edges of a section that did not raise. *)
Definition edges_of {A : Type} (r : result (list A)) : list A :=
  match r with
  | Ok es => es
  | Raise _ => []
  end.

(** What the recursive walker gives for each top-level section of an
    entry whose language has the code [langcode]. *)
Definition section_results `{Imports} `{Parser} (self : Semantics)
    (structure : Entry) (langcode : string) : list (result (list Edge)) :=
  map (fun section =>
         parse_structured_section self section langcode (entry_title structure) None)
    (entry_sections structure).

Definition failures_of {A : Type} (rs : list (result A)) : nat :=
  List.length (filter raises rs).

(** ** An instance of the imports for the examples *)

(** Lower case for the letters A to Z, the case mapping of the example
    instance. *)
Definition ascii_lower (s : string) : string :=
  string_of_list_ascii
    (map (fun c =>
            let n := nat_of_ascii c in
            if ((65 <=? n) && (n <=? 90))%nat then ascii_of_nat (n + 32) else c)
       (list_ascii_of_string s)).

Definition example_concept_uri (lang : option string) (text : string)
    (more : list (option string)) : string :=
  "/c/" ++ match lang with Some l => l | None => "" end ++ "/" ++ text
  ++ String.concat ""
       (map (fun m => match m with Some x => "/" ++ x | None => "" end) more).

#[local] Instance example_imports : Imports := {|
  Edge := EdgeArgs;
  make_edge := fun kwargs => kwargs;
  normalized_concept_uri := example_concept_uri;
  join_uri := String.concat "/";
  Licenses_cc_sharealike := "cc:by-sa/4.0";
  BAD_NAMES_FOR_THINGS := ["it"; "this"; "that"];
  ENGLISH_NAME_TO_CODE_get := fun name =>
    if name =? "English" then Some "en"
    else if name =? "German" then Some "de"
    else if name =? "French" then Some "fr"
    else None;
  str_lower := ascii_lower
|}.

Definition example_link_line : string := "* {{l|en|mammal}}" ++ String newline "".
Definition example_defn_line : string := "# A [[mammal]]." ++ String newline "".

(** A parser that knows two section texts. *)
#[local] Instance example_parser : Parser := {|
  parser_parse := fun self text rule_name =>
    if (rule_name =? "link_section") && (text =? example_link_line) then
      Ok [VEdgeInfo (EdgeInfo.mk (Some "en") "mammal" None None)]
    else if (rule_name =? "definition_section") && (text =? example_defn_line) then
      Ok [VEdgeInfo (EdgeInfo.mk (Some (default_language self)) "mammal" None None)]
    else Raise (FailedParse rule_name)
|}.

Definition example_semantics : Semantics := {|
  default_language := "en";
  trace := false;
  titledb := [("en", "mammal"); ("en", "dog")]
|}.

(** An English entry with one failing top-level section (its subsection
    raises) and one that parses. *)
Definition example_entry_one_failure : Entry := {|
  entry_language := "English";
  entry_title := "dog";
  entry_sections :=
    [mkSection "Noun" "# A [[mammal]]."
       [mkSection "Pronunciation" "" []; mkSection "Hypernyms" "* {{l|en|mammal}}" []];
     mkSection "Noun" "# A [[mammal]]." []]
|}.

(** An English entry with two failing top-level sections. *)
Definition example_entry_two_failures : Entry := {|
  entry_language := "English";
  entry_title := "dog";
  entry_sections :=
    [mkSection "Hypernyms" "* {{l|en|mammal}}" [];
     mkSection "Noun" "# A [[mammal]]." [];
     mkSection "Synonyms" "* {{l|en|hound}}" []]
|}.

(** * Further semantic actions *)

(** ** Further string operations *)

(** [s.split(c, 1)] when [c] occurs in [s]: the text before and the text
    after its first occurrence; [None] when it does not occur. *)
Fixpoint split_once (c : ascii) (s : string) : option (string * string) :=
  match s with
  | EmptyString => None
  | String a s' =>
      if Ascii.eqb a c then Some (EmptyString, s')
      else
        match split_once c s' with
        | Some (l, r) => Some (String a l, r)
        | None => None
        end
  end.

(** [a != b] for two objects that are [None] or a [str]. *)
Definition opt_str_neqb (a b : option string) : bool :=
  match a, b with
  | Some x, Some y => negb (String.eqb x y)
  | None, None => false
  | _, _ => true
  end.

(** [s.lstrip(chars)] *)
Fixpoint lstrip_chars (chars : string) (s : string) : string :=
  match s with
  | EmptyString => EmptyString
  | String c s' =>
      if str_contains (String c EmptyString) chars then lstrip_chars chars s' else s
  end.

Definition is_alpha (c : ascii) : bool :=
  let n := nat_of_ascii c in
  ((65 <=? n) && (n <=? 90) || (97 <=? n) && (n <=? 122))%nat.

Fixpoint all_alpha (s : string) : bool :=
  match s with
  | EmptyString => true
  | String c s' => is_alpha c && all_alpha s'
  end.

(** [s.isdigit()] and [s.isalpha()] on the strings the [line] rule delivers
    as [num] (a dash, a decimal digit or a letter): false on the empty
    string, and bytes outside ASCII are neither digits nor letters. *)
Definition isdigit (s : string) : bool :=
  match s with
  | EmptyString => false
  | _ => all_digits s
  end.

Definition isalpha (s : string) : bool :=
  match s with
  | EmptyString => false
  | _ => all_alpha s
  end.

(** ** wiki_link and external_link *)

Module WikiLink.

(** The AST of the [wiki_link] rule. *)
Record ast : Type := mk {
  site : option string;
  target : string;
  text : option string
}.

End WikiLink.

Definition wiki_link `{Imports} (self : Semantics) (ast : WikiLink.ast)
  : result LinkedText :=
  let links := [] in
  links <-
    match WikiLink.site ast with
    | Some _ => Ok links
    | None =>
        let language := Some (default_language self) in
        let target := Some (WikiLink.target ast) in
        let '(language, target) :=
          if startswith (WikiLink.target ast) "#" then
            (language_code (strip (drop_first (WikiLink.target ast))),
             WikiLink.text ast)
          else
            match split_once "#" (WikiLink.target ast) with
            | Some (tg, lang) =>
                (Some (or_str (language_code (strip lang)) "unknown"), Some tg)
            | None => (language, target)
            end in
        match target with
        | Some tg =>
            if opt_str_neqb language (Some "unknown") then
              e <- EdgeInfo.init language (Some (strip tg)) None None ;;
              Ok (links ++ [e])%list
            else Ok links
        | None => Ok links
        end
    end ;;
  let text := or_opt (WikiLink.text ast) (Some (WikiLink.target ast)) in
  Ok (LinkedText.init (LinkedText.OfText text) links).

(** [external_link]: only the label of the link is kept; it is [None] for a
    link without a label. *)
Definition external_link (text : option string) : LinkedText :=
  LinkedText.init (LinkedText.OfText text) [].

(** ** template_args, template and translation_template *)

Record named_arg : Type := {
  key_ : string;
  value : option LinkedText
}.

(** An item of the [template_args] list: a named argument, or else a
    positional one. *)
Record template_arg : Type := {
  named : option named_arg;
  positional : option LinkedText
}.

(** The loop of [template_args] with its counter [position]. *)
Fixpoint template_args_loop (ast : list template_arg) (position : Z)
    (template_value : dict (option LinkedText)) : dict (option LinkedText) :=
  match ast with
  | [] => template_value
  | item :: rest =>
      match named item with
      | Some n =>
          template_args_loop rest position
            (dict_set (StrKey (key_ n)) (value n) template_value)
      | None =>
          template_args_loop rest (position + 1)
            (dict_set (IntKey position) (positional item) template_value)
      end
  end.

Definition template_args (ast : list template_arg) : dict (option LinkedText) :=
  template_args_loop ast 1 [].

(** [template]: a copy of the arguments with the name under key 0. *)
Definition template (name : string) (args : option (dict (option LinkedText)))
  : dict template_value :=
  let template_value :=
    match args with
    | Some a => map (fun kv => (fst kv, ArgValue (snd kv))) a
    | None => []
    end in
  dict_set (IntKey 0) (TemplateName name) template_value.

Module TranslationTemplate.

Record ast : Type := mk {
  language : string;
  args : dict (option LinkedText)
}.

End TranslationTemplate.

(** [translation_template]: [None] without argument 1; reading [.text] of
    an argument 1 that is [None] raises [AttributeError]. *)
Definition translation_template (ast : TranslationTemplate.ast)
  : result (option EdgeInfo) :=
  match dict_get (IntKey 1) (TranslationTemplate.args ast) with
  | None => Ok None
  | Some a1 =>
      let language := Some (strip (TranslationTemplate.language ast)) in
      match a1 with
      | None => Raise (AttributeError "text")
      | Some v =>
          e <- EdgeInfo.init language (LinkedText.text v) None (Some "TranslationOf") ;;
          Ok (Some e)
      end
  end.

(** ** Link and etymology sections *)

(** [for x in items: links.extend(x.links)] *)
Definition extend_links (links : list EdgeInfo) (items : list LinkedText)
  : list EdgeInfo :=
  fold_left (fun links x => (links ++ LinkedText.links x)%list) items links.

Module LinkEntry.

Record ast : Type := mk {
  links : option (list LinkedText);
  sense : option string
}.

End LinkEntry.

Definition link_entry (ast : LinkEntry.ast) : list EdgeInfo :=
  match LinkEntry.links ast with
  | None => []
  | Some sub_links =>
      let sense := LinkEntry.sense ast in
      let links := extend_links [] sub_links in
      match sense with
      | Some _ => map (fun link => EdgeInfo.set_sense link sense) links
      | None => links
      end
  end.

(** [sum(ast['entries'] or [], [])] *)
Definition link_section (entries : option (list (list EdgeInfo))) : list EdgeInfo :=
  match entries with
  | Some (e :: es) => fold_left (fun acc x => (acc ++ x)%list) (e :: es) []
  | _ => []
  end.

Definition etyl_template_and_link (etyl_language : string) (link : LinkedText)
  : LinkedText :=
  let language := strip etyl_language in
  let links :=
    map (fun l => EdgeInfo.set_language l (Some language)) (LinkedText.links link) in
  LinkedText.init (LinkedText.OfText (LinkedText.text link)) links.

Definition etymology_section (etym : option (list LinkedText)) : list EdgeInfo :=
  let links := [] in
  match etym with
  | None => []
  | Some items => extend_links links items
  end.

Definition definition_section (defns : option (list LinkedText)) : list EdgeInfo :=
  let links := [] in
  match defns with
  | None => []
  | Some items => extend_links links items
  end.

(** ** German translation sections *)

Module ToGerman.

(** [sense] and [target_sense] are results of [sense_num]. *)
Record ast : Type := mk {
  sense : list string;
  target : string;
  target_sense : option (list string)
}.

End ToGerman.

(** The loop of [to_german] over the senses. *)
Fixpoint to_german_senses (self : Semantics) (target : string)
    (senses : list string) (links : list EdgeInfo) : result (list EdgeInfo) :=
  match senses with
  | [] => Ok links
  | sense :: rest =>
      let sense := if sense =? "" then None else Some sense in
      e <- EdgeInfo.init (Some (default_language self)) (Some target) sense
             (Some "TranslationOf") ;;
      to_german_senses self target rest (links ++ [e])%list
  end.

Definition to_german (self : Semantics) (ast : ToGerman.ast)
  : result (list EdgeInfo) :=
  let links := [] in
  let target := ToGerman.target ast in
  target <-
    match ToGerman.target_sense ast with
    | Some [] => Raise IndexError
    | Some (s0 :: _) => Ok (target ++ (" (" ++ s0) ++ ")")
    | None => Ok target
    end ;;
  to_german_senses self target (ToGerman.sense ast) links.

Module TrBase.

(** One [tr_base] of a [from_german] line; every group is optional. *)
Record ast : Type := mk {
  num : option (list string);
  target : option string;
  original : option string
}.

End TrBase.

(** The inner loop of [from_german]: one edge for each sense. *)
Fixpoint from_german_senses (lang : string) (target : option string)
    (senses : list string) (links : list EdgeInfo) : result (list EdgeInfo) :=
  match senses with
  | [] => Ok links
  | sense :: rest =>
      e <- EdgeInfo.init (Some lang) target (Some sense) (Some "TranslationOf") ;;
      from_german_senses lang target rest (links ++ [e])%list
  end.

(** The outer loop of [from_german]; iterating over a [num] that is [None]
    raises [TypeError]. *)
Fixpoint from_german_tr (lang : string) (tr : list TrBase.ast)
    (links : list EdgeInfo) : result (list EdgeInfo) :=
  match tr with
  | [] => Ok links
  | t :: rest =>
      let target :=
        match TrBase.original t with
        | Some o => Some o
        | None => TrBase.target t
        end in
      match TrBase.num t with
      | None => Raise TypeError
      | Some senses =>
          links <- from_german_senses lang target senses links ;;
          from_german_tr lang rest links
      end
  end.

Definition from_german (lang : string) (tr : list TrBase.ast)
  : result (list EdgeInfo) :=
  from_german_tr lang tr [].

(** [translation_section_de]: the items that are themselves an EdgeInfo. *)
Fixpoint translation_section_de (links : list ast_value) : list EdgeInfo :=
  match links with
  | [] => []
  | VEdgeInfo e :: rest => e :: translation_section_de rest
  | _ :: rest => translation_section_de rest
  end.

(** ** German definition sections *)

Record defn_line : Type := {
  line_num : string;
  line_sense : LinkedText
}.

(** [links.pop()]: the last element and the list without it. *)
Definition list_pop {A : Type} (l : list A) : result (A * list A) :=
  match rev l with
  | [] => Raise IndexError
  | x :: r => Ok (x, rev r)
  end.

(** The loop of [definition_section_de] with its three variables [links],
    [sense] and [head_text]. *)
Fixpoint definition_section_de_loop (ast : list defn_line)
    (links : list LinkedText) (sense : option string) (head_text : string)
  : result (list LinkedText) :=
  match ast with
  | [] => Ok links
  | item :: rest =>
      let num := line_num item in
      let curr_sense := sense in
      st <-
        (if isdigit num then
           Ok (links, Some num, Some num, EmptyString)
         else if isalpha num then
           st <-
             (if num =? "a" then
                p <- list_pop links ;;
                let '(link, links) := p in
                match LinkedText.text link with
                | None => Raise (AttributeError "lstrip")
                | Some t => Ok (links, lstrip_chars "()0123456789 " t ++ " ")
                end
              else Ok (links, head_text)) ;;
           let '(links, head_text) := st in
           curr_sense <- LinkedText.str_add curr_sense (Some num) ;;
           Ok (links, sense, Some curr_sense, head_text)
         else Ok (links, sense, curr_sense, EmptyString)) ;;
      let '(links, sense, curr_sense, head_text) := st in
      t1 <- LinkedText.str_add (Some "(") curr_sense ;;
      t2 <- LinkedText.str_add (Some ((t1 ++ ") ") ++ head_text))
              (LinkedText.text (line_sense item)) ;;
      let item_sense :=
        LinkedText.mk (Some t2) (LinkedText.links (line_sense item)) in
      definition_section_de_loop rest (links ++ [item_sense])%list sense head_text
  end.

Definition definition_section_de (ast : list defn_line) : result (list LinkedText) :=
  definition_section_de_loop ast [] None EmptyString.

(** ** The walker, in parts *)

(** The loop over the subsections, as a function of its own. *)
Definition subsections_loop `{Imports} `{Parser} (self : Semantics)
    (headlang headword : string) (headpos : option string) :=
  fix subsections (l : list Section_) (edges : list Edge) : result (list Edge) :=
    match l with
    | [] => Ok edges
    | section :: rest =>
        es <- parse_structured_section self section headlang headword headpos ;;
        subsections rest (edges ++ es)%list
    end.

(** The part of speech a section hands to its own text and to its
    subsections. *)
Definition section_pos (heading headlang : string) (headpos : option string)
  : option string :=
  match table_get headlang POS_HEADINGS with
  | None => headpos
  | Some pos_headings =>
      match table_get heading pos_headings with
      | Some pos =>
          match headpos with
          | None => Some pos
          | Some _ => headpos
          end
      | None => headpos
      end
  end.

(** The items of a [template_args] list that are positional arguments. *)
Definition is_positional (item : template_arg) : bool :=
  match named item with
  | None => true
  | Some _ => false
  end.

(** A positional argument with the given text and links. *)
Definition positional_arg (text : string) (links : list EdgeInfo) : template_arg :=
  {| named := None; positional := Some (LinkedText.mk (Some text) links) |}.

(** The lines of a German definition section that open the sub-senses of a
    sense: the lines lettered [a]. *)
Definition is_first_subsense (item : defn_line) : bool := line_num item =? "a".


(** * Properties *)

(** ** LinkedText and EdgeInfo *)

Lemma str_append_assoc (a b c : string) : ((a ++ b) ++ c = a ++ (b ++ c))%string.
Proof.
  induction a as [| ch a IH]; simpl; [reflexivity | now rewrite IH].
Qed.

(** C8, as amended.  For two LinkedText values whose texts are both strings,
    [a + b] has the text of [a], one space and the text of [b], and the
    links of [a] followed by the links of [b]. *)
Theorem LinkedText_add_texts_and_links (a b : LinkedText) (ta tb : string) :
  LinkedText.text a = Some ta ->
  LinkedText.text b = Some tb ->
  LinkedText.add a b =
  Ok (LinkedText.mk (Some (ta ++ " " ++ tb))
        (LinkedText.links a ++ LinkedText.links b)%list).
Proof.
  intros Ha Hb. unfold LinkedText.add. rewrite Ha, Hb. simpl.
  now rewrite str_append_assoc.
Qed.

Lemma LinkedText_add_texts_and_links_witness :
  LinkedText.add
    (LinkedText.mk (Some "see") [EdgeInfo.mk (Some "en") "water" None None])
    (LinkedText.mk (Some "also") [EdgeInfo.mk (Some "fr") "eau" None None]) =
  Ok (LinkedText.mk (Some "see also")
        [EdgeInfo.mk (Some "en") "water" None None;
         EdgeInfo.mk (Some "fr") "eau" None None]).
Proof.
  apply (@LinkedText_add_texts_and_links
           (LinkedText.mk (Some "see") [EdgeInfo.mk (Some "en") "water" None None])
           (LinkedText.mk (Some "also") [EdgeInfo.mk (Some "fr") "eau" None None])
           "see" "also"); reflexivity.
Defined.

(** C8 as stated fails: the LinkedText of an external link without a label
    has no text, and adding it raises [TypeError] instead of giving a
    LinkedText. *)
Lemma LinkedText_add_null_text_raises :
  let a := LinkedText.init (LinkedText.OfText None) [] in
  let b := LinkedText.init (LinkedText.OfText (Some "label")) [] in
  LinkedText.add a b = Raise TypeError /\
  ~ (exists c : LinkedText, LinkedText.add a b = Ok c).
Proof.
  split; [reflexivity | intros [c Hc]; discriminate Hc].
Qed.

(** C9, as amended.  [set_default_language L] is the identity on an EdgeInfo
    whose language is a non-empty string; when the language is null or the
    empty string it gives a copy with language [L] and the other fields
    unchanged. *)
Theorem set_default_language_fills_only_unset (e : EdgeInfo) (L : option string) :
  (forall l : string,
      EdgeInfo.language e = Some l -> l <> "" ->
      EdgeInfo.set_default_language e L = e) /\
  (EdgeInfo.language e = None \/ EdgeInfo.language e = Some "" ->
   EdgeInfo.set_default_language e L =
   EdgeInfo.mk L (EdgeInfo.target e) (EdgeInfo.sense e) (EdgeInfo.rel e)).
Proof.
  unfold EdgeInfo.set_default_language. split.
  - intros l Hl Hne. rewrite Hl. destruct l; [contradiction | reflexivity].
  - intros [H | H]; rewrite H; reflexivity.
Qed.

Lemma set_default_language_fills_only_unset_witness :
  EdgeInfo.set_default_language (EdgeInfo.mk (Some "fr") "eau" None None) (Some "en")
  = EdgeInfo.mk (Some "fr") "eau" None None /\
  EdgeInfo.set_default_language (EdgeInfo.mk None "eau" None None) (Some "en")
  = EdgeInfo.mk (Some "en") "eau" None None.
Proof.
  split.
  - apply (proj1 (set_default_language_fills_only_unset
                    (EdgeInfo.mk (Some "fr") "eau" None None) (Some "en")) "fr").
    + reflexivity.
    + discriminate.
  - apply (proj2 (set_default_language_fills_only_unset
                    (EdgeInfo.mk None "eau" None None) (Some "en"))).
    left. reflexivity.
Defined.

(** C9 as stated fails: an EdgeInfo whose language is the empty string (the
    stripped language of [{{etyl| |..}}], say) has a non-null language, and
    [set_default_language] replaces it. *)
Lemma set_default_language_empty_language_replaced :
  let e := EdgeInfo.mk (Some "") "eau" None None in
  EdgeInfo.language e <> None /\
  EdgeInfo.set_default_language e (Some "en")
  = EdgeInfo.mk (Some "en") "eau" None None /\
  EdgeInfo.set_default_language e (Some "en") <> e.
Proof.
  repeat split; discriminate.
Qed.


Lemma startswith_tilde (s : string) :
  startswith s "~" = true <-> exists r, s = String "~"%char r.
Proof.
  destruct s as [| c s]; cbn [startswith].
  - split; [intros H; discriminate H | intros [r Hr]; discriminate Hr].
  - destruct (Ascii.eqb_spec "~"%char c) as [<- | Hne]; cbn [andb].
    + split; [intros _; now exists s | intros _; now destruct s].
    + split; [intros H; discriminate H | intros [r Hr]; congruence].
Qed.

(** C4.  [complete_edge] hands [make_edge] the relation [RelatedTo] when the
    EdgeInfo has no relation; when the effective relation begins with [~]
    the prefix is stripped and the start and end URIs are swapped; for every
    other relation the start is the head concept and the end the target
    concept. *)
Theorem complete_edge_relation_and_endpoints `{Imports} (e : EdgeInfo)
    (rule_name headlang headword : string) (headpos : option string) :
  let head :=
    normalized_concept_uri (Some headlang) headword
      [headpos; EdgeInfo.complete_edge_sense e headpos] in
  let tgt := normalized_concept_uri (EdgeInfo.language e) (EdgeInfo.target e) [] in
  let rel := or_str (EdgeInfo.rel e) "RelatedTo" in
  let kw := EdgeInfo.complete_edge_kwargs e rule_name headlang headword headpos in
  EdgeInfo.complete_edge e rule_name headlang headword headpos = make_edge kw /\
  (EdgeInfo.rel e = None ->
   edge_rel kw = join_uri ["/r"; "RelatedTo"] /\
   edge_start kw = head /\ edge_end kw = tgt) /\
  (forall r : string, rel = String "~"%char r ->
   edge_rel kw = join_uri ["/r"; r] /\
   edge_start kw = tgt /\ edge_end kw = head) /\
  (startswith rel "~" = false ->
   edge_rel kw = join_uri ["/r"; rel] /\
   edge_start kw = head /\ edge_end kw = tgt).
Proof.
  intros head tgt rel kw. split; [reflexivity |]. split; [| split].
  - intros Hnone. subst kw. unfold EdgeInfo.complete_edge_kwargs.
    rewrite Hnone. simpl. auto.
  - intros r Hr. subst kw. unfold EdgeInfo.complete_edge_kwargs.
    fold rel. assert (Hs : startswith rel "~" = true)
      by (apply startswith_tilde; now exists r).
    rewrite Hs, Hr. simpl. auto.
  - intros Hs. subst kw. unfold EdgeInfo.complete_edge_kwargs.
    fold rel. rewrite Hs. simpl. auto.
Qed.

Lemma complete_edge_relation_and_endpoints_witness :
  let hypo := EdgeInfo.mk (Some "en") "poodle" None (Some "~IsA") in
  let bare := EdgeInfo.mk (Some "en") "mammal" None None in
  let kw e := EdgeInfo.complete_edge_kwargs e "link_section" "en" "dog" None in
  (edge_rel (kw hypo) = "/r/IsA" /\
   edge_start (kw hypo) = "/c/en/poodle" /\ edge_end (kw hypo) = "/c/en/dog") /\
  (edge_rel (kw bare) = "/r/RelatedTo" /\
   edge_start (kw bare) = "/c/en/dog" /\ edge_end (kw bare) = "/c/en/mammal").
Proof.
  split.
  - apply (proj1 (proj2 (proj2
             (@complete_edge_relation_and_endpoints example_imports
                (EdgeInfo.mk (Some "en") "poodle" None (Some "~IsA"))
                "link_section" "en" "dog" None))) "IsA").
    reflexivity.
  - apply (proj1 (proj2
             (@complete_edge_relation_and_endpoints example_imports
                (EdgeInfo.mk (Some "en") "mammal" None None)
                "link_section" "en" "dog" None))).
    reflexivity.
Defined.

(** C7.  When [headpos] is null, or the sense is in the blacklist
    [BAD_NAMES_FOR_THINGS], [complete_edge] drops the sense: the URI of the
    head concept is built with no sense, and the edge is the one of the same
    EdgeInfo without its sense. *)
Theorem complete_edge_drops_sense `{Imports} (e : EdgeInfo)
    (rule_name headlang headword : string) (headpos : option string) :
  headpos = None \/ in_BAD_NAMES_FOR_THINGS (EdgeInfo.sense e) = true ->
  let kw := EdgeInfo.complete_edge_kwargs e rule_name headlang headword headpos in
  let head := normalized_concept_uri (Some headlang) headword [headpos; None] in
  EdgeInfo.complete_edge_sense e headpos = None /\
  (if startswith (or_str (EdgeInfo.rel e) "RelatedTo") "~"
   then edge_end kw = head else edge_start kw = head) /\
  EdgeInfo.complete_edge e rule_name headlang headword headpos =
  EdgeInfo.complete_edge (EdgeInfo.set_sense e None) rule_name headlang headword
    headpos.
Proof.
  intros Hdrop kw head.
  assert (Hs : EdgeInfo.complete_edge_sense e headpos = None).
  { unfold EdgeInfo.complete_edge_sense.
    destruct Hdrop as [-> | Hbad]; [reflexivity |].
    destruct headpos; [now rewrite Hbad | reflexivity]. }
  assert (Hs' : EdgeInfo.complete_edge_sense (EdgeInfo.set_sense e None) headpos = None).
  { unfold EdgeInfo.complete_edge_sense. now destruct headpos. }
  split; [exact Hs |]. split.
  - subst kw head. unfold EdgeInfo.complete_edge_kwargs. rewrite Hs.
    destruct (startswith _ "~"); reflexivity.
  - unfold EdgeInfo.complete_edge, EdgeInfo.complete_edge_kwargs.
    rewrite Hs, Hs'. reflexivity.
Qed.

Lemma complete_edge_drops_sense_witness :
  let e := EdgeInfo.mk (Some "fr") "eau" (Some "clear liquid") (Some "TranslationOf") in
  edge_start (EdgeInfo.complete_edge_kwargs e "translation_section" "en" "water" None)
  = "/c/en/water".
Proof.
  exact (proj1 (proj2
    (@complete_edge_drops_sense example_imports
       (EdgeInfo.mk (Some "fr") "eau" (Some "clear liquid") (Some "TranslationOf"))
       "translation_section" "en" "water" None (or_introl eq_refl)))).
Defined.

(** A blacklisted sense under a known part of speech is dropped too. *)
Lemma complete_edge_drops_blacklisted_sense_example :
  let e := EdgeInfo.mk (Some "fr") "eau" (Some "it") (Some "TranslationOf") in
  edge_start (EdgeInfo.complete_edge_kwargs e "translation_section" "en" "water" (Some "n"))
  = "/c/en/water/n".
Proof. reflexivity. Qed.

(** ** join_text *)

Lemma join_text_items_joinable (lst : list ast_value) :
  forallb joinable lst = true ->
  forall texts links, exists r, join_text_items lst texts links = Ok r.
Proof.
  induction lst as [| item rest IH]; simpl; intros Hall texts links.
  - now eexists.
  - apply andb_true_iff in Hall as [Hitem Hrest].
    destruct item; simpl in Hitem; try discriminate; now apply IH.
Qed.

Lemma join_text_items_not_joinable (lst : list ast_value) :
  forallb joinable lst = false ->
  forall texts links, join_text_items lst texts links = Raise TypeError.
Proof.
  induction lst as [| item rest IH]; simpl; intros Hall texts links.
  - discriminate.
  - destruct item; simpl in Hall; try reflexivity; now apply IH.
Qed.

(** C10, as amended.  [join_text] of a null list is null; of a non-null list
    whose items are each null, a string, a LinkedText or a dictionary it is
    a LinkedText; a list with an item of another type raises [TypeError]. *)
Theorem join_text_null_or_LinkedText :
  join_text None = Ok None /\
  (forall lst : list ast_value,
      forallb joinable lst = true ->
      exists lt : LinkedText, join_text (Some lst) = Ok (Some lt)) /\
  (forall lst : list ast_value,
      forallb joinable lst = false -> join_text (Some lst) = Raise TypeError).
Proof.
  split; [reflexivity |]. split; intros lst Hall; unfold join_text.
  - destruct (join_text_items_joinable lst Hall [] []) as [[texts links] Hr].
    rewrite Hr. simpl. now eexists.
  - now rewrite (join_text_items_not_joinable lst Hall).
Qed.

Lemma join_text_null_or_LinkedText_witness :
  (exists lt : LinkedText,
      join_text (Some [VStr "a "; VNone;
                       VLinked (LinkedText.mk (Some "b") []);
                       VDict [(IntKey 0, TemplateName "archaic")]])
      = Ok (Some lt)) /\
  join_text (Some [VStr "a"; VList []]) = Raise TypeError.
Proof.
  split.
  - apply (proj1 (proj2 join_text_null_or_LinkedText)). reflexivity.
  - apply (proj2 (proj2 join_text_null_or_LinkedText)). reflexivity.
Defined.

(** C10 as stated fails: a non-null list holding an EdgeInfo is not turned
    into a LinkedText; [join_text] raises [TypeError]. *)
Lemma join_text_other_item_raises :
  let lst := [VStr "see "; VEdgeInfo (EdgeInfo.mk (Some "en") "water" None None)] in
  join_text (Some lst) = Raise TypeError /\
  ~ (exists lt : LinkedText, join_text (Some lst) = Ok (Some lt)).
Proof.
  split; [reflexivity | intros [lt Hlt]; discriminate Hlt].
Qed.


(** ** The entry walker *)

Lemma in_tuple_In (x : string) (t : list string) : in_tuple x t = true <-> In x t.
Proof.
  unfold in_tuple. rewrite existsb_exists. split.
  - intros [y [Hy Heq]]. apply String.eqb_eq in Heq. now subst.
  - intros Hin. exists x. split; [exact Hin | apply String.eqb_refl].
Qed.

(** C6.  An entry whose language is one of the skipped languages, or whose
    language name has no code in [ENGLISH_NAME_TO_CODE], gives no edge. *)
Theorem parse_structured_entry_skipped_or_unmapped `{Imports} `{Parser}
    (self : Semantics) (structure : Entry) :
  In (entry_language structure) ["Lojban"; "Translingual"; "American Sign Language"]
  \/ ENGLISH_NAME_TO_CODE_get (entry_language structure) = None ->
  parse_structured_entry self structure = Ok [].
Proof.
  intros Hgate. unfold parse_structured_entry.
  destruct (in_tuple (entry_language structure) SKIPPED_LANGUAGES) eqn:Hskip;
    [reflexivity |].
  destruct Hgate as [Hin | Hnone].
  - apply in_tuple_In in Hin. unfold SKIPPED_LANGUAGES in Hskip. congruence.
  - unfold language_code. now rewrite Hnone.
Qed.

Lemma parse_structured_entry_skipped_or_unmapped_witness :
  parse_structured_entry example_semantics
    {| entry_language := "Translingual"; entry_title := "H2O";
       entry_sections := [mkSection "Noun" example_defn_line []] |} = Ok []
  /\
  parse_structured_entry example_semantics
    {| entry_language := "Klingon"; entry_title := "Qapla'";
       entry_sections := [mkSection "Noun" example_defn_line []] |} = Ok [].
Proof.
  split.
  - apply (@parse_structured_entry_skipped_or_unmapped example_imports example_parser).
    left. simpl. tauto.
  - apply (@parse_structured_entry_skipped_or_unmapped example_imports example_parser).
    right. reflexivity.
Defined.

Lemma entry_sections_loop_spec `{Imports} `{Parser} (self : Semantics)
    (langcode title : string) (sections : list Section_) :
  forall (edges : list Edge) (failures : nat),
    let rs :=
      map (fun section => parse_structured_section self section langcode title None)
        sections in
    entry_sections_loop self sections langcode title edges failures =
    ((edges ++ List.concat (map edges_of rs))%list, failures + failures_of rs).
Proof.
  induction sections as [| section rest IH]; intros edges failures; simpl.
  - unfold failures_of. simpl. now rewrite app_nil_r, Nat.add_0_r.
  - destruct (parse_structured_section self section langcode title None) as [es | e];
      rewrite IH; unfold failures_of; simpl.
    + now rewrite app_assoc.
    + f_equal. lia.
Qed.

(** C5.  For an entry that passes the language gate: when at most one of its
    top-level sections raises, [parse_structured_entry] returns the edges of
    the other sections, concatenated in order; when more than one raises,
    it raises (the assertion [failures <= 1] fails). *)
Theorem parse_structured_entry_failure_bound `{Imports} `{Parser}
    (self : Semantics) (structure : Entry) (langcode : string) :
  in_tuple (entry_language structure) SKIPPED_LANGUAGES = false ->
  language_code (entry_language structure) = Some langcode ->
  let rs := section_results self structure langcode in
  (failures_of rs <= 1 ->
   parse_structured_entry self structure = Ok (List.concat (map edges_of rs))) /\
  (1 < failures_of rs ->
   parse_structured_entry self structure = Raise AssertionError).
Proof.
  intros Hskip Hcode rs. unfold parse_structured_entry.
  rewrite Hskip, Hcode, entry_sections_loop_spec. fold (section_results self structure langcode).
  fold rs. simpl. split; intros Hf.
  - apply Nat.leb_le in Hf. now rewrite Hf.
  - apply Nat.leb_gt in Hf. now rewrite Hf.
Qed.


Lemma parse_structured_entry_failure_bound_witness :
  parse_structured_entry example_semantics example_entry_one_failure
  = Ok [EdgeInfo.complete_edge (EdgeInfo.mk (Some "en") "mammal" None None)
          "definition_section" "en" "dog" (Some "n")]
  /\
  parse_structured_entry example_semantics example_entry_two_failures
  = Raise AssertionError.
Proof.
  split.
  - rewrite (proj1 (@parse_structured_entry_failure_bound example_imports
                      example_parser example_semantics example_entry_one_failure
                      "en" eq_refl eq_refl)).
    + reflexivity.
    + vm_compute. lia.
  - rewrite (proj2 (@parse_structured_entry_failure_bound example_imports
                      example_parser example_semantics example_entry_two_failures
                      "en" eq_refl eq_refl)).
    + reflexivity.
    + vm_compute. lia.
Defined.

(** ** The section walker *)

Lemma map_result_as_EdgeInfo {B : Type} (attr : string) (g : EdgeInfo -> B)
    (eis : list EdgeInfo) :
  map_result (fun v => ei <- as_EdgeInfo attr v ;; Ok (g ei)) (map VEdgeInfo eis)
  = Ok (map g eis).
Proof.
  induction eis as [| ei eis IH]; simpl; [reflexivity | now rewrite IH].
Qed.

(** The section's own text: a handler that is not a definition rule never
    gets past the reading of the local variable [language]. *)
Lemma section_edges_other_handler `{Imports} `{Parser} (self : Semantics)
    (text heading headlang headword : string) (headpos : option string)
    (rule : string) (rel : option string) :
  _get_rule_for_heading self heading = (Some rule, rel) ->
  in_tuple rule definition_rules = false ->
  raises (section_edges self text heading headlang headword headpos) = true /\
  (forall eis : list EdgeInfo,
      parse self (rstrip_newlines text ++ String newline "") rule
      = Ok (map VEdgeInfo eis) ->
      section_edges self text heading headlang headword headpos
      = Raise (UnboundLocalError "language")).
Proof.
  intros Hrule Hdef. unfold section_edges. rewrite Hrule, Hdef. split.
  - destruct (parse self _ rule) as [parsed | e]; simpl; [| reflexivity].
    destruct rel as [r |]; simpl; [| reflexivity].
    destruct (map_result _ parsed); reflexivity.
  - intros eis Hparse. rewrite Hparse. simpl.
    destruct rel as [r |]; simpl; [| reflexivity].
    now rewrite (map_result_as_EdgeInfo "set_rel"
                   (fun ei => VEdgeInfo (EdgeInfo.set_rel ei (Some r)))).
Qed.

(** C1 fails on the code.  For a section whose heading dispatches to a
    handler that is not a definition rule, the walker raises instead of
    setting the default language and emitting edges: whenever the section
    text parses to a list of EdgeInfo, the exception is the unbound local
    variable [language]. *)
Theorem parse_structured_section_other_handler_raises `{Imports} `{Parser}
    (self : Semantics) (heading text : string) (sections : list Section_)
    (headlang headword : string) (headpos : option string)
    (rule : string) (rel : option string) :
  _get_rule_for_heading self heading = (Some rule, rel) ->
  in_tuple rule definition_rules = false ->
  let structure := mkSection heading text sections in
  raises (parse_structured_section self structure headlang headword headpos) = true
  /\
  (forall eis : list EdgeInfo,
      table_get headlang POS_HEADINGS <> None ->
      parse self (rstrip_newlines text ++ String newline "") rule
      = Ok (map VEdgeInfo eis) ->
      parse_structured_section self structure headlang headword headpos
      = Raise (UnboundLocalError "language")).
Proof.
  intros Hrule Hdef structure. subst structure. cbn [parse_structured_section].
  destruct (table_get headlang POS_HEADINGS) as [pos_headings |]; split;
    try reflexivity; try (intros eis Hpos; now elim Hpos).
  - match goal with
    | |- context [section_edges self text heading headlang headword ?hp] =>
        destruct (section_edges_other_handler self text heading headlang headword
                    hp Hrule Hdef) as [Hraises _];
        destruct (section_edges self text heading headlang headword hp)
    end; [discriminate Hraises | reflexivity].
  - intros eis _ Hparse.
    match goal with
    | |- context [section_edges self text heading headlang headword ?hp] =>
        rewrite (proj2 (section_edges_other_handler self text heading headlang
                          headword hp Hrule Hdef) eis Hparse)
    end. reflexivity.
Qed.

Lemma parse_structured_section_other_handler_raises_witness :
  parse_structured_section example_semantics
    (mkSection "Hypernyms" "* {{l|en|mammal}}" []) "en" "dog" None
  = Raise (UnboundLocalError "language").
Proof.
  apply (proj2 (@parse_structured_section_other_handler_raises example_imports
                  example_parser example_semantics "Hypernyms" "* {{l|en|mammal}}"
                  [] "en" "dog" None "link_section" (Some "IsA") eq_refl eq_refl)
           [EdgeInfo.mk (Some "en") "mammal" None None]).
  - discriminate.
  - reflexivity.
Defined.


(** ** sense_num *)

(** C3 fails on the code.  A dash form that is the whole expression reaches
    [sense_num] as [first] and [last], and only these two end points are
    returned: for [1-3] the output is [["1"; "3"]], without ["2"]. *)
Theorem sense_num_whole_dash_form_not_expanded :
  let ast := {| first := "1"; last := Some "3"; next := None; next_range := None |} in
  sense_num ast = Ok ["1"; "3"] /\
  ~ In (str_of_int 2) ["1"; "3"].
Proof.
  split; [reflexivity |].
  intros [H | [H | []]]; discriminate H.
Qed.

Lemma In_insert_sorted (x y : string) (xs : list string) :
  In x (insert_sorted y xs) <-> x = y \/ In x xs.
Proof.
  induction xs as [| z xs IH]; simpl.
  - intuition congruence.
  - destruct (String.leb y z); simpl; [intuition congruence |].
    rewrite IH. intuition congruence.
Qed.

Lemma In_sorted (x : string) (xs : list string) : In x (sorted xs) <-> In x xs.
Proof.
  unfold sorted. induction xs as [| y xs IH]; simpl; [tauto |].
  rewrite In_insert_sorted, IH. intuition congruence.
Qed.

Lemma In_range (a b i : Z) : (a <= i < b)%Z -> In i (range a b).
Proof.
  intros Hi. unfold range. apply in_map_iff.
  exists (Z.to_nat (i - a)). split; [lia |].
  apply in_seq. lia.
Qed.

Lemma extend_ranges_ok (elems : list num_range) :
  (forall elem, In elem elems -> exists r, expand_range elem = Ok r) ->
  forall num_list, exists out,
    extend_ranges num_list elems = Ok out /\
    (forall x, In x num_list -> In x out) /\
    (forall elem r x,
        In elem elems -> expand_range elem = Ok r -> In x r -> In x out).
Proof.
  induction elems as [| elem rest IH]; intros Hall num_list; simpl.
  - exists num_list. repeat split; [auto | intros ? ? ? []].
  - destruct (Hall elem (or_introl eq_refl)) as [r Hr]. rewrite Hr. simpl.
    destruct (IH (fun e He => Hall e (or_intror He)) (num_list ++ r)%list)
      as [out [Hout [Hkeep Hnew]]].
    exists out. split; [exact Hout |]. split.
    + intros x Hx. apply Hkeep, in_or_app. now left.
    + intros elem' r' x [<- | Hin] Hr' Hx.
      * rewrite Hr in Hr'. injection Hr' as <-.
        apply Hkeep, in_or_app. now right.
      * now apply (Hnew elem' r' x).
Qed.

(** The other path of [sense_num]: a range that is an element of the comma
    list is expanded, every integer from its start to its end is in the
    output. *)
Lemma sense_num_list_range_expanded (ast : sense_num_ast) (elems : list num_range) :
  truthy (last ast) = false ->
  next_range ast = Some elems ->
  (forall elem, In elem elems ->
     exists a b, int_of_str (range_start elem) = Ok a /\
                 int_of_str (range_end elem) = Ok b) ->
  exists out,
    sense_num ast = Ok out /\
    In (first ast) out /\
    (forall elem a b i,
        In elem elems ->
        int_of_str (range_start elem) = Ok a ->
        int_of_str (range_end elem) = Ok b ->
        (a <= i <= b)%Z -> In (str_of_int i) out).
Proof.
  intros Hlast Hnr Hparse. unfold sense_num. rewrite Hlast, Hnr.
  set (num_list := match next ast with
                   | Some ns => ([first ast] ++ ns)%list
                   | None => [first ast]
                   end).
  assert (Hexp : forall elem, In elem elems -> exists r, expand_range elem = Ok r).
  { intros elem Hin. destruct (Hparse elem Hin) as [a [b [Ha Hb]]].
    unfold expand_range. rewrite Ha, Hb. simpl. now eexists. }
  destruct (extend_ranges_ok elems Hexp num_list) as [out [Hout [Hkeep Hnew]]].
  rewrite Hout. simpl. exists (sorted out). split; [reflexivity |]. split.
  - apply In_sorted, Hkeep. subst num_list. destruct (next ast); simpl; auto.
  - intros elem a b i Hin Ha Hb Hi. apply In_sorted.
    apply (Hnew elem (map str_of_int (range a (b + 1)))).
    + exact Hin.
    + unfold expand_range. rewrite Ha, Hb. reflexivity.
    + apply in_map, In_range. lia.
Qed.

Example sense_num_list_range_example :
  sense_num {| first := "5"; last := None; next := None;
               next_range := Some [{| range_start := "1"; range_end := "3" |}] |}
  = Ok ["1"; "2"; "3"; "5"].
Proof. reflexivity. Qed.

(** ** link_template *)

Lemma key_eqb_refl (k : key) : key_eqb k k = true.
Proof.
  destruct k; simpl; [apply Z.eqb_refl | apply String.eqb_refl].
Qed.

Lemma key_eqb_eq (a b : key) : key_eqb a b = true <-> a = b.
Proof.
  destruct a, b; simpl; try (split; intros; discriminate || congruence).
  - rewrite Z.eqb_eq. split; congruence.
  - rewrite String.eqb_eq. split; congruence.
Qed.

Lemma dict_get_set_same {V : Type} (k : key) (v : V) (d : dict V) :
  dict_get k (dict_set k v d) = Some v.
Proof.
  induction d as [| [k' v'] d IH]; simpl.
  - now rewrite key_eqb_refl.
  - destruct (key_eqb k k') eqn:E; simpl; rewrite E; [reflexivity | exact IH].
Qed.

Lemma dict_get_set_other {V : Type} (k k' : key) (v : V) (d : dict V) :
  key_eqb k k' = false ->
  dict_get k (dict_set k' v d) = dict_get k d.
Proof.
  intros Hne. induction d as [| [k0 v0] d IH]; simpl.
  - now rewrite Hne.
  - destruct (key_eqb k' k0) eqn:E; simpl.
    + apply key_eqb_eq in E. subst k0. now rewrite Hne.
    + destruct (key_eqb k k0); [reflexivity | exact IH].
Qed.

Lemma dict_get_app_none {V : Type} (k k' : key) (d : dict (option V)) :
  match dict_get k (d ++ [(k', None)])%list with
  | Some v => v
  | None => None
  end =
  match dict_get k d with
  | Some v => v
  | None => None
  end.
Proof.
  induction d as [| [k0 v0] d IH]; simpl.
  - destruct (key_eqb k k'); reflexivity.
  - destruct (key_eqb k k0); [reflexivity | exact IH].
Qed.

(** Reading a key stores at most a [None], which no later reading can tell
    from an absent key. *)
Lemma dd_get_after_dd_get (k k' : key) (d : defaultdict) :
  fst (dd_get k (snd (dd_get k' d))) = fst (dd_get k d).
Proof.
  unfold dd_get at 2. destruct (dict_get k' d) as [v |]; simpl; [reflexivity |].
  unfold dd_get. generalize (dict_get_app_none k k' d).
  destruct (dict_get k (d ++ [(k', None)])%list), (dict_get k d); simpl; auto.
Qed.

Lemma dict_get_absent {V : Type} (k : key) (d : dict V) :
  ~ In k (map fst d) -> dict_get k d = None.
Proof.
  induction d as [| [k' v] d IH]; simpl; intros Hk; [reflexivity |].
  destruct (key_eqb k k') eqn:E.
  - apply key_eqb_eq in E. subst k'. exfalso. apply Hk. now left.
  - apply IH. tauto.
Qed.

(** What the first loop of [link_template] leaves in [links]. *)
Lemma collect_args_links (items : dict (option LinkedText)) :
  forall args links,
    snd (collect_args items args links) =
    (links ++
     flat_map (fun kv => match snd kv with
                         | Some value => LinkedText.links value
                         | None => []
                         end) items)%list.
Proof.
  induction items as [| [k [v |]] items IH]; intros args links; simpl.
  - now rewrite app_nil_r.
  - rewrite IH. now rewrite app_assoc.
  - apply IH.
Qed.

(** What the first loop of [link_template] leaves in [args], for an
    argument map (an association list without repeated keys). *)
Lemma collect_args_get (items : dict (option LinkedText)) :
  NoDup (map fst items) ->
  forall args links k,
    dict_get k (fst (collect_args items args links)) =
    match dict_get k items with
    | Some (Some value) => Some (LinkedText.text value)
    | _ => dict_get k args
    end.
Proof.
  induction items as [| [k0 [v |]] items IH]; intros Hnd args links k; simpl.
  - reflexivity.
  - inversion Hnd as [| ? ? Hnotin Hnd']; subst. rewrite IH by exact Hnd'.
    destruct (key_eqb k k0) eqn:E.
    + apply key_eqb_eq in E. subst k0.
      rewrite (dict_get_absent k items Hnotin). apply dict_get_set_same.
    + destruct (dict_get k items) as [[value |] |]; try reflexivity;
        now apply dict_get_set_other.
  - inversion Hnd as [| ? ? Hnotin Hnd']; subst. rewrite IH by exact Hnd'.
    destruct (key_eqb k k0) eqn:E; [| reflexivity].
    apply key_eqb_eq in E. subst k0.
    now rewrite (dict_get_absent k items Hnotin).
Qed.

Lemma arg_text_collected (ast : link_template_ast) (k : key) :
  NoDup (map fst (args ast)) ->
  arg_text ast k = fst (dd_get k (fst (collect_args (args ast) [] []))).
Proof.
  intros Hnd. unfold arg_text, dd_get.
  rewrite (collect_args_get (args ast) Hnd [] [] k).
  destruct (dict_get k (args ast)) as [[value |] |]; reflexivity.
Qed.

(** The template name is the literal the test [E] found. *)
Ltac literal E := apply String.eqb_eq in E; rewrite E in *; clear E.

(** The one argument the branch of this template reads is falsy ([Hreq]):
    no branch is taken. *)
Ltac no_branch Hreq :=
  simpl in Hreq; apply negb_true_iff in Hreq; unfold and_arg; simpl;
  match goal with
  | |- context [dd_get ?k ?d] => destruct (dd_get k d) as [? ?]
  end;
  simpl in Hreq; rewrite Hreq; reflexivity.

(** C2, as amended.  For an argument map in which the argument that the
    branch of the template tests is missing or empty (argument 2 for [l],
    [term/t], [borrowing] and [etycomp]; argument 1 for [term], [ja-l],
    [ko-inline], [back-form], [clipping] and [-er]), [link_template] returns
    a LinkedText whose text is the empty string and whose links are the links
    inside the values of the arguments that are present, in the order of the
    map; the links are empty when no argument value carries a link. *)
Theorem link_template_required_argument_missing (self : Semantics)
    (ast : link_template_ast) :
  NoDup (map fst (args ast)) ->
  required_argument_missing ast = true ->
  link_template self ast = Ok (LinkedText.mk (Some "") (arg_links ast)) /\
  ((forall k v, In (k, Some v) (args ast) -> LinkedText.links v = []) ->
   link_template self ast = Ok (LinkedText.mk (Some "") [])).
Proof.
  intros Hnd Hreq.
  assert (Hres : link_template self ast = Ok (LinkedText.mk (Some "") (arg_links ast))).
  { unfold required_argument_missing in Hreq.
    rewrite !(arg_text_collected ast _ Hnd) in Hreq.
    unfold link_template, arg_links.
    rewrite <- (app_nil_l (flat_map _ (args ast))).
    rewrite <- (collect_args_links (args ast) [] []).
    destruct (collect_args (args ast) [] []) as [d links].
    simpl fst in Hreq. simpl snd. unfold in_tuple, existsb in Hreq.
    destruct (linktype ast =? "l") eqn:El.
    - literal El.
      apply andb_true_iff in Hreq as [H1 H2]. apply negb_true_iff in H1, H2.
      pose proof (dd_get_after_dd_get (IntKey 2) (IntKey 1) d) as Hafter.
      unfold and_arg. destruct (truthy_list (subtypes ast)); simpl in H1 |- *.
      + destruct (dd_get (IntKey 1) d) as [v1 d1]. simpl in H1, Hafter. rewrite H1.
        destruct (dd_get (IntKey 2) d1) as [v2 d2]. simpl in Hafter.
        rewrite Hafter, H2. reflexivity.
      + destruct (dd_get (IntKey 2) d) as [v2 d2]. simpl in H2. rewrite H2.
        reflexivity.
    - destruct (linktype ast =? "term/t") eqn:E1; [literal E1; no_branch Hreq |].
      destruct (linktype ast =? "borrowing") eqn:E2; [literal E2; no_branch Hreq |].
      destruct (linktype ast =? "etycomp") eqn:E3; [literal E3; no_branch Hreq |].
      destruct (linktype ast =? "term") eqn:E4; [literal E4; no_branch Hreq |].
      destruct (linktype ast =? "ja-l") eqn:E5; [literal E5; no_branch Hreq |].
      destruct (linktype ast =? "ko-inline") eqn:E6; [literal E6; no_branch Hreq |].
      destruct (linktype ast =? "back-form") eqn:E7; [literal E7; no_branch Hreq |].
      destruct (linktype ast =? "clipping") eqn:E8; [literal E8; no_branch Hreq |].
      destruct (linktype ast =? "-er") eqn:E9; [literal E9; no_branch Hreq |].
      discriminate Hreq. }
  split; [exact Hres |].
  intros Hno. rewrite Hres. f_equal. f_equal. unfold arg_links.
  revert Hno. generalize (args ast). intros items.
  induction items as [| [k [v |]] items IH]; intros Hno; simpl.
  - reflexivity.
  - rewrite (Hno k v) by now left. apply IH.
    intros k' v' Hin. apply (Hno k' v'). now right.
  - apply IH. intros k' v' Hin. apply (Hno k' v'). now right.
Qed.

Lemma link_template_required_argument_missing_witness :
  let inner := EdgeInfo.mk (Some "en") "aqua" None None in
  link_template example_semantics
    {| linktype := "term"; subtypes := None;
       args := [(StrKey "lang", Some (LinkedText.mk (Some "la") []));
                (StrKey "gloss", Some (LinkedText.mk (Some "aqua") [inner]))] |}
  = Ok (LinkedText.mk (Some "") [inner]).
Proof.
  refine (proj1 (@link_template_required_argument_missing example_semantics
                   {| linktype := "term"; subtypes := None;
                      args := [(StrKey "lang", Some (LinkedText.mk (Some "la") []));
                               (StrKey "gloss",
                                Some (LinkedText.mk (Some "aqua")
                                        [EdgeInfo.mk (Some "en") "aqua" None None]))] |}
                   _ eq_refl)).
  repeat constructor; simpl; intuition discriminate.
Defined.

(** C2 as stated fails: in [{{l|[[en]]}}] argument 2 is missing, and the
    LinkedText returned has the empty text but keeps the link of the wiki
    link inside argument 1. *)
Lemma link_template_missing_argument_keeps_links :
  let inner := EdgeInfo.mk (Some "en") "en" None None in
  let ast :=
    {| linktype := "l"; subtypes := None;
       args := [(IntKey 1, Some (LinkedText.mk (Some "en") [inner]))] |} in
  arg_text ast (IntKey 2) = None /\
  link_template example_semantics ast = Ok (LinkedText.mk (Some "") [inner]) /\
  link_template example_semantics ast <> Ok (LinkedText.mk (Some "") []).
Proof.
  repeat split; discriminate.
Qed.

(** * Further properties *)

(** ** join_text *)

Lemma str_append_empty_r (s : string) : (s ++ "")%string = s.
Proof.
  induction s as [| c s IH]; simpl; [reflexivity | now rewrite IH].
Qed.

Lemma join_empty_cons (x : string) (xs : list string) :
  join_empty (x :: xs) = (x ++ join_empty xs)%string.
Proof.
  unfold join_empty. destruct xs as [| y ys]; simpl.
  - now rewrite str_append_empty_r.
  - reflexivity.
Qed.

Lemma join_empty_app (xs ys : list string) :
  join_empty (xs ++ ys) = (join_empty xs ++ join_empty ys)%string.
Proof.
  induction xs as [| x xs IH].
  - reflexivity.
  - simpl app. now rewrite !join_empty_cons, IH, str_append_assoc.
Qed.

(** The accumulators of the loop only grow at their end. *)
Lemma join_text_items_prefix (lst : list ast_value) :
  forall texts links texts' links' t0 l0,
    join_text_items lst texts links = Ok (texts', links') ->
    exists t1 l1,
      texts' = (texts ++ t1)%list /\ links' = (links ++ l1)%list /\
      join_text_items lst t0 l0 = Ok ((t0 ++ t1)%list, (l0 ++ l1)%list).
Proof.
  induction lst as [| item rest IH]; intros texts links texts' links' t0 l0 H.
  - simpl in H. injection H as <- <-. exists [], []. simpl.
    now rewrite !app_nil_r.
  - destruct item as [| s | lt | d | e | l]; simpl in H |- *; try discriminate H.
    + now apply IH.
    + destruct (IH _ _ _ _ (t0 ++ [s])%list l0 H) as [t1 [l1 [-> [-> Hr]]]].
      exists (s :: t1), l1. rewrite <- !app_assoc in *. simpl in *. auto.
    + destruct (LinkedText.text lt) as [s |].
      * destruct (IH _ _ _ _ (t0 ++ [s])%list (l0 ++ LinkedText.links lt)%list H)
          as [t1 [l1 [-> [-> Hr]]]].
        exists (s :: t1), (LinkedText.links lt ++ l1)%list.
        rewrite <- !app_assoc in *. simpl in *. auto.
      * destruct (IH _ _ _ _ t0 (l0 ++ LinkedText.links lt)%list H)
          as [t1 [l1 [-> [-> Hr]]]].
        exists t1, (LinkedText.links lt ++ l1)%list.
        rewrite <- !app_assoc in *. auto.
    + now apply IH.
Qed.

Lemma join_text_items_app (l1 l2 : list ast_value) :
  forall texts links,
    join_text_items (l1 ++ l2) texts links =
    (r <- join_text_items l1 texts links ;; join_text_items l2 (fst r) (snd r)).
Proof.
  induction l1 as [| item rest IH]; intros texts links; simpl.
  - reflexivity.
  - destruct item; try reflexivity; apply IH.
Qed.

(** X1.  [join_text] is a homomorphism for list concatenation: when two
    lists can be joined, joining their concatenation gives the two texts
    put together with nothing in between, and the links of the first
    followed by the links of the second. *)
Theorem join_text_app (l1 l2 : list ast_value) (a b : LinkedText) :
  join_text (Some l1) = Ok (Some a) ->
  join_text (Some l2) = Ok (Some b) ->
  exists ta tb : string,
    LinkedText.text a = Some ta /\ LinkedText.text b = Some tb /\
    join_text (Some (l1 ++ l2)%list) =
    Ok (Some (LinkedText.mk (Some (ta ++ tb))
                (LinkedText.links a ++ LinkedText.links b)%list)).
Proof.
  unfold join_text. intros Ha Hb.
  destruct (join_text_items l1 [] []) as [[t1 k1] |] eqn:E1; [| discriminate Ha].
  destruct (join_text_items l2 [] []) as [[t2 k2] |] eqn:E2; [| discriminate Hb].
  simpl in Ha, Hb. injection Ha as <-. injection Hb as <-.
  exists (join_empty t1), (join_empty t2). repeat split.
  rewrite join_text_items_app, E1. simpl.
  destruct (join_text_items_prefix l2 [] [] t1 k1 E2) as [t [k [-> [-> Hr]]]].
  rewrite Hr. simpl. now rewrite join_empty_app.
Qed.

Lemma join_text_app_witness :
  exists ta tb : string,
    Some "see " = Some ta /\ Some "water" = Some tb /\
    join_text (Some ([VStr "see "; VNone]
                     ++ [VLinked (LinkedText.mk (Some "water")
                                    [EdgeInfo.mk (Some "en") "water" None None])])%list)
    = Ok (Some (LinkedText.mk (Some (ta ++ tb))
                  ([] ++ [EdgeInfo.mk (Some "en") "water" None None])%list)).
Proof.
  exact (@join_text_app [VStr "see "; VNone]
           [VLinked (LinkedText.mk (Some "water")
                       [EdgeInfo.mk (Some "en") "water" None None])]
           (LinkedText.mk (Some "see ") [])
           (LinkedText.mk (Some "water") [EdgeInfo.mk (Some "en") "water" None None])
           eq_refl eq_refl).
Defined.

(** [join_text] is idempotent: a LinkedText that [join_text] returned
    is given back unchanged when it is joined again as a single item. *)
Theorem join_text_idempotent (lst : list ast_value) (r : LinkedText) :
  join_text (Some lst) = Ok (Some r) ->
  join_text (Some [VLinked r]) = Ok (Some r).
Proof.
  unfold join_text. intros H.
  destruct (join_text_items lst [] []) as [[t k] |]; [| discriminate H].
  simpl in H. injection H as <-. reflexivity.
Qed.

Lemma join_text_idempotent_witness :
  join_text (Some [VLinked (LinkedText.mk (Some "a b") [])])
  = Ok (Some (LinkedText.mk (Some "a b") [])).
Proof.
  apply (@join_text_idempotent [VStr "a "; VStr "b"]). reflexivity.
Defined.

(** ** LinkedText and EdgeInfo *)

(** X2.  Concatenation of LinkedText values is associative: when [a + b]
    and [b + c] are defined, [(a + b) + c] and [a + (b + c)] are the same
    LinkedText. *)
Theorem LinkedText_add_assoc (a b c ab bc : LinkedText) :
  LinkedText.add a b = Ok ab ->
  LinkedText.add b c = Ok bc ->
  exists r : LinkedText,
    LinkedText.add ab c = Ok r /\ LinkedText.add a bc = Ok r.
Proof.
  unfold LinkedText.add. intros Hab Hbc.
  destruct a as [[ta |] la], b as [[tb |] lb], c as [[tc |] lc];
    simpl in *; try discriminate.
  injection Hab as <-. injection Hbc as <-. simpl.
  eexists. split; [reflexivity |].
  now rewrite !str_append_assoc, app_assoc.
Qed.

Lemma LinkedText_add_assoc_witness :
  exists r : LinkedText,
    LinkedText.add (LinkedText.mk (Some "a b") []) (LinkedText.mk (Some "c") []) = Ok r
    /\
    LinkedText.add (LinkedText.mk (Some "a") []) (LinkedText.mk (Some "b c") []) = Ok r.
Proof.
  exact (@LinkedText_add_assoc (LinkedText.mk (Some "a") [])
           (LinkedText.mk (Some "b") []) (LinkedText.mk (Some "c") [])
           (LinkedText.mk (Some "a b") []) (LinkedText.mk (Some "b c") [])
           eq_refl eq_refl).
Defined.

(** The first default language wins: once [set_default_language] was
    given a non-empty language, or the EdgeInfo had one, a second call
    changes nothing. *)
Theorem set_default_language_first_wins (e : EdgeInfo) (L1 L2 : option string) :
  truthy (EdgeInfo.language e) = true \/ truthy L1 = true ->
  EdgeInfo.set_default_language (EdgeInfo.set_default_language e L1) L2 =
  EdgeInfo.set_default_language e L1.
Proof.
  unfold EdgeInfo.set_default_language. intros [H | H].
  - rewrite H. now rewrite H.
  - destruct (truthy (EdgeInfo.language e)) eqn:E.
    + now rewrite E.
    + simpl. now rewrite H.
Qed.

Lemma set_default_language_first_wins_witness :
  EdgeInfo.set_default_language
    (EdgeInfo.set_default_language (EdgeInfo.mk None "eau" None None) (Some "fr"))
    (Some "en")
  = EdgeInfo.set_default_language (EdgeInfo.mk None "eau" None None) (Some "fr").
Proof.
  apply set_default_language_first_wins. right. reflexivity.
Defined.

(** ** sense_num *)

Lemma insert_sorted_Sorted (x : string) (xs : list string) :
  Sorted (fun a b => String.leb a b = true) xs ->
  Sorted (fun a b => String.leb a b = true) (insert_sorted x xs).
Proof.
  induction xs as [| y ys IH]; intros Hs; simpl.
  - repeat constructor.
  - destruct (String.leb x y) eqn:Hxy.
    + constructor; [exact Hs | now constructor].
    + inversion Hs as [| ? ? Hys Hhd]; subst. constructor; [now apply IH |].
      assert (Hyx : String.leb y x = true)
        by (destruct (String.leb_total x y) as [H | H]; congruence).
      destruct ys as [| z zs]; simpl; [now constructor |].
      destruct (String.leb x z); constructor; [exact Hyx |].
      now inversion Hhd.
Qed.

Lemma sorted_Sorted (xs : list string) :
  Sorted (fun a b => String.leb a b = true) (sorted xs).
Proof.
  unfold sorted. induction xs as [| x xs IH]; simpl.
  - constructor.
  - now apply insert_sorted_Sorted.
Qed.

(** X3.  Whatever [sense_num] returns is in ascending order of the string
    comparison (so ["10"] comes before ["9"]). *)
Theorem sense_num_output_sorted (ast : sense_num_ast) (out : list string) :
  sense_num ast = Ok out ->
  Sorted (fun a b => String.leb a b = true) out.
Proof.
  unfold sense_num. intros H.
  match type of H with
  | bind ?r _ = _ => destruct r as [num_list | e]
  end; [| discriminate H].
  simpl in H. injection H as <-. apply sorted_Sorted.
Qed.

Lemma sense_num_output_sorted_witness :
  Sorted (fun a b => String.leb a b = true) ["10"; "11"; "5"; "9"].
Proof.
  apply (@sense_num_output_sorted
           {| first := "5"; last := None; next := None;
              next_range := Some [{| range_start := "9"; range_end := "11" |}] |}).
  reflexivity.
Defined.

Lemma In_range_inv (a b i : Z) : In i (range a b) -> (a <= i < b)%Z.
Proof.
  unfold range. intros H. apply in_map_iff in H as [k [<- Hk]].
  apply in_seq in Hk. lia.
Qed.

Lemma expand_range_members (elem : num_range) (r : list string) (x : string) :
  expand_range elem = Ok r ->
  (In x r <->
   exists a b i,
     int_of_str (range_start elem) = Ok a /\ int_of_str (range_end elem) = Ok b /\
     (a <= i <= b)%Z /\ x = str_of_int i).
Proof.
  unfold expand_range. intros H.
  destruct (int_of_str (range_start elem)) as [a |]; [| discriminate H].
  destruct (int_of_str (range_end elem)) as [b |]; [| discriminate H].
  simpl in H. injection H as <-. rewrite in_map_iff. split.
  - intros [i [<- Hi]]. apply In_range_inv in Hi. exists a, b, i.
    repeat split; try reflexivity; lia.
  - intros [a' [b' [i [Ha [Hb [Hi ->]]]]]]. injection Ha as <-. injection Hb as <-.
    exists i. split; [reflexivity | apply In_range; lia].
Qed.

Lemma extend_ranges_members (elems : list num_range) :
  forall num_list out x,
    extend_ranges num_list elems = Ok out ->
    (In x out <->
     In x num_list \/
     exists elem r, In elem elems /\ expand_range elem = Ok r /\ In x r).
Proof.
  induction elems as [| elem rest IH]; intros num_list out x H; simpl in H.
  - injection H as <-. split; [auto | intros [H | [e [r [[] _]]]]; exact H].
  - destruct (expand_range elem) as [r |] eqn:Er; [| discriminate H].
    simpl in H. rewrite (IH _ _ x H), in_app_iff. split.
    + intros [[Hx | Hx] | [e [r' [Hin [He Hx]]]]].
      * now left.
      * right. exists elem, r. simpl. auto.
      * right. exists e, r'. simpl. auto.
    + intros [Hx | [e [r' [[<- | Hin] [He Hx]]]]].
      * left. now left.
      * rewrite Er in He. injection He as <-. left. now right.
      * right. now exists e, r'.
Qed.

(** X4.  The members of a comma list.  When there is no [last], what
    [sense_num] returns holds exactly: [first], the numbers of [next], and
    the decimal form of every integer between the end points of a range of
    [next_range]; nothing else. *)
Theorem sense_num_list_members (ast : sense_num_ast) (out : list string)
    (x : string) :
  truthy (last ast) = false ->
  sense_num ast = Ok out ->
  (In x out <->
   x = first ast \/
   (exists ns, next ast = Some ns /\ In x ns) \/
   (exists elems elem a b i,
       next_range ast = Some elems /\ In elem elems /\
       int_of_str (range_start elem) = Ok a /\
       int_of_str (range_end elem) = Ok b /\
       (a <= i <= b)%Z /\ x = str_of_int i)).
Proof.
  intros Hlast H. unfold sense_num in H. rewrite Hlast in H.
  set (num_list := match next ast with
                   | Some ns => ([first ast] ++ ns)%list
                   | None => [first ast]
                   end) in H.
  assert (Hnl : In x num_list <->
                x = first ast \/ exists ns, next ast = Some ns /\ In x ns).
  { subst num_list. destruct (next ast) as [ns |]; simpl.
    - split.
      + intros [Hx | Hx]; [now left | right; now exists ns].
      + intros [Hx | [ns' [Hns Hx]]]; [now left |].
        injection Hns as <-. now right.
    - split.
      + intros [Hx | []]. now left.
      + intros [Hx | [ns' [Hns _]]]; [now left | discriminate Hns]. }
  destruct (next_range ast) as [elems |] eqn:Enr.
  - destruct (extend_ranges num_list elems) as [l |] eqn:El; [| discriminate H].
    simpl in H. injection H as <-.
    rewrite In_sorted, (extend_ranges_members elems num_list x El), Hnl. split.
    + intros [[Hx | Hx] | [elem [r [Hin [Hr Hx]]]]]; [now left | right; now left |].
      right. right.
      apply (expand_range_members elem x Hr) in Hx as [a [b [i [Ha [Hb [Hi ->]]]]]].
      now exists elems, elem, a, b, i.
    + intros [Hx | [Hx | [elems' [elem [a [b [i [He [Hin [Ha [Hb [Hi ->]]]]]]]]]]]].
      * left. now left.
      * left. now right.
      * injection He as <-. right.
        exists elem, (map str_of_int (range a (b + 1))). repeat split.
        -- exact Hin.
        -- unfold expand_range. now rewrite Ha, Hb.
        -- apply in_map, In_range. lia.
  - simpl in H. injection H as <-. rewrite In_sorted, Hnl. split.
    + intros [Hx | Hx]; [now left | right; now left].
    + intros [Hx | [Hx | [elems' [? [? [? [? [He _]]]]]]]];
        [now left | now right | discriminate He].
Qed.

Lemma sense_num_list_members_witness :
  In "2" ["1"; "2"; "3"; "5"] <->
  "2" = "5" \/
  (exists ns, @None (list string) = Some ns /\ In "2" ns) \/
  (exists elems elem a b i,
      Some [{| range_start := "1"; range_end := "3" |}] = Some elems /\
      In elem elems /\
      int_of_str (range_start elem) = Ok a /\
      int_of_str (range_end elem) = Ok b /\
      (a <= i <= b)%Z /\ "2" = str_of_int i).
Proof.
  exact (@sense_num_list_members
           {| first := "5"; last := None; next := None;
              next_range := Some [{| range_start := "1"; range_end := "3" |}] |}
           ["1"; "2"; "3"; "5"] "2" eq_refl eq_refl).
Defined.

Lemma int_of_str_not_digits (s : string) :
  all_digits s = false -> int_of_str s = Raise ValueError.
Proof.
  unfold int_of_str. intros H. destruct s; [discriminate H | now rewrite H].
Qed.

Lemma int_of_str_raises (s : string) (e : exn) :
  int_of_str s = Raise e -> e = ValueError.
Proof.
  unfold int_of_str. destruct s; [congruence |].
  destruct (all_digits _); [| congruence].
  destruct (NilEmpty.uint_of_string _); congruence.
Qed.

Lemma expand_range_raises (elem : num_range) (e : exn) :
  expand_range elem = Raise e -> e = ValueError.
Proof.
  unfold expand_range.
  destruct (int_of_str (range_start elem)) eqn:Ea; simpl;
    [| intros H; injection H as <-; now apply int_of_str_raises in Ea].
  destruct (int_of_str (range_end elem)) eqn:Eb; simpl;
    [discriminate | intros H; injection H as <-; now apply int_of_str_raises in Eb].
Qed.

Lemma extend_ranges_malformed (elems : list num_range) :
  (exists elem, In elem elems /\ raises (expand_range elem) = true) ->
  forall num_list, extend_ranges num_list elems = Raise ValueError.
Proof.
  induction elems as [| elem rest IH]; intros [bad [Hin Hbad]] num_list.
  - destruct Hin.
  - simpl. destruct (expand_range elem) as [r | e] eqn:Er; simpl.
    + apply IH. exists bad. split; [| exact Hbad].
      destruct Hin as [<- | Hin]; [| exact Hin].
      rewrite Er in Hbad. discriminate Hbad.
    + now rewrite (expand_range_raises elem Er).
Qed.

(** X5.  A range of the comma list with an end point that is not a plain
    number (the [num] token admits a letter after the digits, as in
    [1a-3]) makes [sense_num] raise [ValueError]. *)
Theorem sense_num_malformed_range (ast : sense_num_ast) (elems : list num_range) :
  truthy (last ast) = false ->
  next_range ast = Some elems ->
  (exists elem, In elem elems /\
     (all_digits (range_start elem) = false \/ all_digits (range_end elem) = false)) ->
  sense_num ast = Raise ValueError.
Proof.
  intros Hlast Hnr [elem [Hin Hbad]]. unfold sense_num. rewrite Hlast, Hnr.
  rewrite extend_ranges_malformed; [reflexivity |].
  exists elem. split; [exact Hin |]. unfold expand_range.
  destruct Hbad as [H | H].
  - now rewrite (int_of_str_not_digits _ H).
  - destruct (int_of_str (range_start elem)); [| reflexivity].
    simpl. now rewrite (int_of_str_not_digits _ H).
Qed.

Lemma sense_num_malformed_range_witness :
  sense_num {| first := "5"; last := None; next := Some ["7"];
               next_range := Some [{| range_start := "1a"; range_end := "3" |}] |}
  = Raise ValueError.
Proof.
  apply (@sense_num_malformed_range _ [{| range_start := "1a"; range_end := "3" |}]).
  - reflexivity.
  - reflexivity.
  - exists {| range_start := "1a"; range_end := "3" |}. split.
    + left. reflexivity.
    + left. reflexivity.
Defined.

(** ** The heading dispatcher *)

Lemma table_get_default {V : Type} (P : V -> Prop) (t : table V) (k : string)
    (d : V) :
  Forall (fun kv => P (snd kv)) t -> P d ->
  P (match table_get k t with Some r => r | None => d end).
Proof.
  intros Ht Hd. induction Ht as [| [k' v] t Hv _ IH]; simpl; [exact Hd |].
  destruct (k =? k'); [exact Hv | exact IH].
Qed.

(** X6.  In every edition and for every heading, a relation is attached
    only to a rule: when [_get_rule_for_heading] gives no rule it gives no
    relation either. *)
Theorem get_rule_for_heading_no_rule_no_relation (self : Semantics)
    (heading : string) :
  fst (_get_rule_for_heading self heading) = None ->
  snd (_get_rule_for_heading self heading) = None.
Proof.
  unfold _get_rule_for_heading, RULES_AND_RELATIONS_MAP. cbn [table_get].
  destruct (default_language self =? "en") eqn:Een.
  - cbn [andb]. destruct (startswith heading "Etymology"); [discriminate |].
    apply (table_get_default (fun r => fst r = None -> snd r = None));
      [repeat constructor; simpl; congruence | discriminate].
  - cbn [andb]. destruct (default_language self =? "de"); [| reflexivity].
    apply (table_get_default (fun r => fst r = None -> snd r = None));
      [repeat constructor; simpl; congruence | reflexivity].
Qed.

Lemma get_rule_for_heading_no_rule_no_relation_witness :
  snd (_get_rule_for_heading example_semantics "Pronunciation") = None.
Proof.
  apply get_rule_for_heading_no_rule_no_relation. reflexivity.
Defined.



(** ** The walker *)

Lemma subsections_loop_ok `{Imports} `{Parser} (self : Semantics)
    (headlang headword : string) (headpos : option string) (l : list Section_) :
  Forall (fun s =>
            raises (parse_structured_section self s headlang headword headpos)
            = false) l ->
  forall edges,
    subsections_loop self headlang headword headpos l edges =
    Ok (edges ++
        List.concat
          (map (fun s =>
                  edges_of (parse_structured_section self s headlang headword headpos))
             l))%list.
Proof.
  induction 1 as [| s l Hs _ IH]; intros edges; simpl.
  - now rewrite app_nil_r.
  - destruct (parse_structured_section self s headlang headword headpos) as [es |];
      [| discriminate Hs].
    simpl. rewrite IH. now rewrite app_assoc.
Qed.

Lemma subsections_loop_raises `{Imports} `{Parser} (self : Semantics)
    (headlang headword : string) (headpos : option string) (l : list Section_) :
  Exists (fun s =>
            raises (parse_structured_section self s headlang headword headpos)
            = true) l ->
  forall edges,
    raises (subsections_loop self headlang headword headpos l edges) = true.
Proof.
  induction l as [| s l IH]; intros Hex edges.
  - inversion Hex.
  - simpl.
    destruct (parse_structured_section self s headlang headword headpos) as [es |] eqn:E;
      simpl; [| reflexivity].
    apply IH. inversion Hex as [? ? Hs | ? ? Hl]; subst; [| exact Hl].
    rewrite E in Hs. discriminate Hs.
Qed.

Lemma parse_structured_section_unfold `{Imports} `{Parser} (self : Semantics)
    (heading text : string) (sections : list Section_)
    (headlang headword : string) (headpos : option string) :
  table_get headlang POS_HEADINGS <> None ->
  parse_structured_section self (mkSection heading text sections) headlang
    headword headpos =
  (edges <- section_edges self text heading headlang headword
              (section_pos heading headlang headpos) ;;
   subsections_loop self headlang headword (section_pos heading headlang headpos)
     sections edges).
Proof.
  intros Hpos. cbn [parse_structured_section]. unfold section_pos.
  destruct (table_get headlang POS_HEADINGS); [reflexivity | now elim Hpos].
Qed.

(** X8.  Document order.  When the text of a section and all its
    subsections are processed without an exception, the edges of the section
    are the edges of its own text followed by the edges of its subsections
    in their order, each subsection walked with the part of speech of its
    parent. *)
Theorem parse_structured_section_document_order `{Imports} `{Parser}
    (self : Semantics) (heading text : string) (sections : list Section_)
    (headlang headword : string) (headpos : option string) (own : list Edge) :
  table_get headlang POS_HEADINGS <> None ->
  let pos := section_pos heading headlang headpos in
  section_edges self text heading headlang headword pos = Ok own ->
  Forall (fun s =>
            raises (parse_structured_section self s headlang headword pos) = false)
    sections ->
  parse_structured_section self (mkSection heading text sections) headlang
    headword headpos =
  Ok (own ++
      List.concat
        (map (fun s => edges_of (parse_structured_section self s headlang headword pos))
           sections))%list.
Proof.
  intros Hpos pos Hown Hsubs.
  rewrite parse_structured_section_unfold by exact Hpos.
  fold pos. rewrite Hown. simpl. now apply subsections_loop_ok.
Qed.

Lemma parse_structured_section_document_order_witness :
  parse_structured_section example_semantics
    (mkSection "Noun" "# A [[mammal]]."
       [mkSection "Pronunciation" "" []; mkSection "Adjective" "# A [[mammal]]." []])
    "en" "dog" None
  = Ok [EdgeInfo.complete_edge (EdgeInfo.mk (Some "en") "mammal" None None)
          "definition_section" "en" "dog" (Some "n");
        EdgeInfo.complete_edge (EdgeInfo.mk (Some "en") "mammal" None None)
          "definition_section" "en" "dog" (Some "n")].
Proof.
  apply (@parse_structured_section_document_order example_imports example_parser
           example_semantics "Noun" "# A [[mammal]]."
           [mkSection "Pronunciation" "" []; mkSection "Adjective" "# A [[mammal]]." []]
           "en" "dog" None
           [EdgeInfo.complete_edge (EdgeInfo.mk (Some "en") "mammal" None None)
              "definition_section" "en" "dog" (Some "n")]).
  - discriminate.
  - reflexivity.
  - repeat constructor.
Defined.

(** X9.  One failing subsection fails its parent: when a subsection raises
    (under the part of speech of its parent), the section raises too, and
    the edges of its own text and of the other subsections are lost. *)
Theorem parse_structured_section_subsection_raises `{Imports} `{Parser}
    (self : Semantics) (heading text : string) (sections : list Section_)
    (headlang headword : string) (headpos : option string) (sub : Section_) :
  In sub sections ->
  raises (parse_structured_section self sub headlang headword
            (section_pos heading headlang headpos)) = true ->
  raises (parse_structured_section self (mkSection heading text sections)
            headlang headword headpos) = true.
Proof.
  intros Hin Hsub.
  destruct (table_get headlang POS_HEADINGS) as [tbl |] eqn:Hpos.
  - rewrite parse_structured_section_unfold by congruence.
    destruct (section_edges _ _ _ _ _ _) as [own |]; simpl; [| reflexivity].
    apply subsections_loop_raises, Exists_exists. now exists sub.
  - cbn [parse_structured_section]. now rewrite Hpos.
Qed.

Lemma parse_structured_section_subsection_raises_witness :
  raises (parse_structured_section example_semantics
            (mkSection "Noun" "# A [[mammal]]."
               [mkSection "Pronunciation" "" [];
                mkSection "Hypernyms" "* {{l|en|mammal}}" []])
            "en" "dog" None) = true.
Proof.
  apply (@parse_structured_section_subsection_raises example_imports example_parser
           example_semantics "Noun" "# A [[mammal]]." _ "en" "dog" None
           (mkSection "Hypernyms" "* {{l|en|mammal}}" [])).
  - right. left. reflexivity.
  - reflexivity.
Defined.

(** A head language without a table of part-of-speech headings (any
    code but [en] and [de]) makes the walker raise [KeyError] on every
    section, before anything is parsed. *)
Theorem parse_structured_section_no_pos_table `{Imports} `{Parser}
    (self : Semantics) (structure : Section_) (headlang headword : string)
    (headpos : option string) :
  table_get headlang POS_HEADINGS = None ->
  parse_structured_section self structure headlang headword headpos
  = Raise (KeyError headlang).
Proof.
  intros Hpos. destruct structure as [heading text sections].
  cbn [parse_structured_section]. now rewrite Hpos.
Qed.

Lemma parse_structured_section_no_pos_table_witness :
  parse_structured_section example_semantics
    (mkSection "Nom" "# Un [[animal]]." []) "fr" "chien" None
  = Raise (KeyError "fr").
Proof.
  apply parse_structured_section_no_pos_table. reflexivity.
Defined.





(** Induction on a section with the property known for its subsections. *)
Fixpoint Section_forall_ind (P : Section_ -> Prop)
    (step : forall heading text sections,
        Forall P sections -> P (mkSection heading text sections))
    (s : Section_) {struct s} : P s :=
  match s with
  | mkSection heading text sections =>
      step heading text sections
        ((fix all (l : list Section_) : Forall P l :=
            match l with
            | [] => Forall_nil P
            | x :: l' => Forall_cons x (@Section_forall_ind P step x) (all l')
            end) sections)
  end.

(** X11.  In an edition without heading table (any language but [en] and
    [de]) no heading has a rule and the parser is never called: for a head
    language that has a table of part-of-speech headings the walker returns
    no edge for any tree of sections, and for any other head language it
    raises [KeyError]. *)
Theorem parse_structured_section_unknown_edition `{Imports} `{Parser}
    (self : Semantics) (headlang headword : string) (structure : Section_) :
  table_get (default_language self) RULES_AND_RELATIONS_MAP = None ->
  forall headpos : option string,
    parse_structured_section self structure headlang headword headpos =
    match table_get headlang POS_HEADINGS with
    | Some _ => Ok []
    | None => Raise (KeyError headlang)
    end.
Proof.
  intros Hmap.
  destruct (table_get headlang POS_HEADINGS) as [tbl |] eqn:Htbl;
    [| intros headpos; now apply parse_structured_section_no_pos_table].
  assert (Hpos : table_get headlang POS_HEADINGS <> None) by congruence.
  induction structure as [heading text sections IH] using Section_forall_ind.
  intros headpos. rewrite parse_structured_section_unfold by exact Hpos.
  unfold section_edges, _get_rule_for_heading. rewrite Hmap. simpl.
  generalize (section_pos heading headlang headpos). intros pos.
  induction IH as [| s l Hs _ IHl]; simpl; [reflexivity |].
  rewrite Hs. simpl. exact IHl.
Qed.

Lemma parse_structured_section_unknown_edition_witness :
  let self := {| default_language := "fr"; trace := false; titledb := [] |} in
  let tree :=
    mkSection "Nom" "# Un [[animal]]." [mkSection "Synonymes" "* [[cabot]]" []] in
  parse_structured_section self tree "en" "dog" None = Ok [] /\
  parse_structured_section self tree "fr" "chien" None = Raise (KeyError "fr").
Proof.
  split.
  - apply (@parse_structured_section_unknown_edition example_imports example_parser
             {| default_language := "fr"; trace := false; titledb := [] |}
             "en" "dog"). reflexivity.
  - apply (@parse_structured_section_unknown_edition example_imports example_parser
             {| default_language := "fr"; trace := false; titledb := [] |}
             "fr" "chien"). reflexivity.
Defined.

(** ** The title table *)

(** X13.  [disambiguate_language] returns the first of the options that
    the title table knows for this title, and [None] exactly when the table
    knows none of them. *)
Theorem disambiguate_language_first_match `{Imports} (self : Semantics)
    (options : list string) (title : string) :
  match disambiguate_language self options title with
  | Some l =>
      exists pre post,
        options = (pre ++ l :: post)%list /\
        check_titledb self l title = true /\
        Forall (fun o => check_titledb self o title = false) pre
  | None => Forall (fun o => check_titledb self o title = false) options
  end.
Proof.
  induction options as [| o rest IH]; simpl.
  - constructor.
  - destruct (check_titledb self o title) eqn:Ho.
    + exists [], rest. auto.
    + destruct (disambiguate_language self rest title) as [l |].
      * destruct IH as [pre [post [-> [Hl Hpre]]]].
        exists (o :: pre), post. auto.
      * now constructor.
Qed.

(** ** wiki_link *)

(** X14.  [wiki_link] never raises; the text of its LinkedText is the label
    of the link, or the target when there is no label; it carries at most
    one link, and none for a link to another site. *)
Theorem wiki_link_text_and_link_count `{Imports} (self : Semantics)
    (ast : WikiLink.ast) :
  exists lt : LinkedText,
    wiki_link self ast = Ok lt /\
    LinkedText.text lt = or_opt (WikiLink.text ast) (Some (WikiLink.target ast)) /\
    (List.length (LinkedText.links lt) <= 1)%nat /\
    (WikiLink.site ast <> None -> LinkedText.links lt = []).
Proof.
  unfold wiki_link. destruct (WikiLink.site ast) as [site |]; simpl.
  - eexists. repeat split; simpl; auto.
  - match goal with
    | |- context [let '(language, target) := ?p in _] => destruct p as [language [tg |]]
    end; simpl.
    + destruct (opt_str_neqb language (Some "unknown")); simpl;
        eexists; repeat split; simpl; auto; congruence.
    + eexists. repeat split; simpl; auto; congruence.
Qed.

(** X15.  A plain link [[target]] or [[target|label]] (no site, no [#] in
    the target) gives exactly one link: to the stripped target, in the
    language of the edition, with no sense and no relation.  (The edition
    language must not be the string "unknown", which the function uses as
    its marker.) *)
Theorem wiki_link_plain `{Imports} (self : Semantics) (ast : WikiLink.ast) :
  WikiLink.site ast = None ->
  split_once "#" (WikiLink.target ast) = None ->
  default_language self <> "unknown" ->
  wiki_link self ast =
  Ok (LinkedText.mk
        (or_opt (WikiLink.text ast) (Some (WikiLink.target ast)))
        [EdgeInfo.mk (Some (default_language self)) (strip (WikiLink.target ast))
           None None]).
Proof.
  intros Hsite Hsplit Hdl. unfold wiki_link. rewrite Hsite, Hsplit.
  assert (Hstart : startswith (WikiLink.target ast) "#" = false).
  { destruct (WikiLink.target ast) as [| c s]; [reflexivity |].
    cbn [startswith]. simpl in Hsplit. rewrite Ascii.eqb_sym.
    destruct (Ascii.eqb c "#"); [discriminate Hsplit | reflexivity]. }
  rewrite Hstart. cbn [opt_str_neqb].
  apply String.eqb_neq in Hdl. rewrite Hdl. reflexivity.
Qed.

Lemma wiki_link_plain_witness :
  wiki_link example_semantics (WikiLink.mk None " water " None) =
  Ok (LinkedText.mk (Some " water ") [EdgeInfo.mk (Some "en") "water" None None]).
Proof.
  apply (@wiki_link_plain example_imports example_semantics
           (WikiLink.mk None " water " None)).
  - reflexivity.
  - reflexivity.
  - discriminate.
Defined.

(** X16.  A link [[word#Language]] to a section of another page: when the
    language name has no code there is no link at all; when it has the code
    [code] the link goes to the stripped word in that language. *)
Theorem wiki_link_section_of_page `{Imports} (self : Semantics)
    (ast : WikiLink.ast) (word name : string) :
  WikiLink.site ast = None ->
  startswith (WikiLink.target ast) "#" = false ->
  split_once "#" (WikiLink.target ast) = Some (word, name) ->
  let text := or_opt (WikiLink.text ast) (Some (WikiLink.target ast)) in
  (language_code (strip name) = None ->
   wiki_link self ast = Ok (LinkedText.mk text [])) /\
  (forall code : string,
      language_code (strip name) = Some code ->
      code <> "" -> code <> "unknown" ->
      wiki_link self ast =
      Ok (LinkedText.mk text [EdgeInfo.mk (Some code) (strip word) None None])).
Proof.
  intros Hsite Hstart Hsplit text. unfold wiki_link.
  rewrite Hsite, Hstart, Hsplit. split.
  - intros Hnone. rewrite Hnone. reflexivity.
  - intros code Hcode Hne Hunk. rewrite Hcode.
    destruct code as [| c code]; [contradiction |].
    cbn [or_str truthy opt_str_neqb].
    apply String.eqb_neq in Hunk. rewrite Hunk. reflexivity.
Qed.

Lemma wiki_link_section_of_page_witness :
  wiki_link example_semantics (WikiLink.mk None "chien#French" None) =
  Ok (LinkedText.mk (Some "chien#French")
        [EdgeInfo.mk (Some "fr") "chien" None None])
  /\
  wiki_link example_semantics (WikiLink.mk None "Qapla#Klingon" None) =
  Ok (LinkedText.mk (Some "Qapla#Klingon") []).
Proof.
  split.
  - apply (proj2 (@wiki_link_section_of_page example_imports example_semantics
                    (WikiLink.mk None "chien#French" None) "chien" "French"
                    eq_refl eq_refl eq_refl) "fr").
    + reflexivity.
    + discriminate.
    + discriminate.
  - apply (proj1 (@wiki_link_section_of_page example_imports example_semantics
                    (WikiLink.mk None "Qapla#Klingon" None) "Qapla" "Klingon"
                    eq_refl eq_refl eq_refl)).
    reflexivity.
Defined.

(** X17.  A link [[#Language|label]] to a section of the same page: the
    label is the target, and there is a link even when the language name has
    no code; its language is then null. *)
Theorem wiki_link_section_of_same_page `{Imports} (self : Semantics)
    (ast : WikiLink.ast) (label : string) :
  WikiLink.site ast = None ->
  startswith (WikiLink.target ast) "#" = true ->
  WikiLink.text ast = Some label ->
  let language := language_code (strip (drop_first (WikiLink.target ast))) in
  language <> Some "unknown" ->
  wiki_link self ast =
  Ok (LinkedText.mk (or_opt (Some label) (Some (WikiLink.target ast)))
        [EdgeInfo.mk language (strip label) None None]).
Proof.
  intros Hsite Hstart Htext language Hunk. unfold wiki_link.
  rewrite Hsite, Hstart, Htext. fold language.
  assert (Hneq : opt_str_neqb language (Some "unknown") = true).
  { destruct language as [l |]; [| reflexivity]. simpl.
    apply negb_true_iff, String.eqb_neq. congruence. }
  rewrite Hneq. reflexivity.
Qed.

Lemma wiki_link_section_of_same_page_witness :
  wiki_link example_semantics (WikiLink.mk None "#Klingon" (Some "Qapla")) =
  Ok (LinkedText.mk (Some "Qapla") [EdgeInfo.mk None "Qapla" None None]).
Proof.
  apply (@wiki_link_section_of_same_page example_imports example_semantics
           (WikiLink.mk None "#Klingon" (Some "Qapla")) "Qapla").
  - reflexivity.
  - reflexivity.
  - reflexivity.
  - discriminate.
Defined.

(** ** Template arguments *)

(** Named arguments never touch the integer keys. *)
Lemma template_args_loop_named_skipped (ast : list template_arg) :
  forall position d d',
    (forall n, dict_get (IntKey n) d = dict_get (IntKey n) d') ->
    forall n,
      dict_get (IntKey n) (template_args_loop ast position d) =
      dict_get (IntKey n) (template_args_loop (filter is_positional ast) position d').
Proof.
  induction ast as [| item rest IH]; intros position d d' Hd n; simpl.
  - apply Hd.
  - unfold is_positional at 1. destruct (named item) as [na |] eqn:Hn.
    + apply IH. intros m. rewrite dict_get_set_other by reflexivity. apply Hd.
    + simpl. rewrite Hn. apply IH. intros m.
      destruct (Z.eqb m position) eqn:E.
      * apply Z.eqb_eq in E. subst m. now rewrite !dict_get_set_same.
      * rewrite !dict_get_set_other by exact E. apply Hd.
Qed.

(** The positional arguments are stored under consecutive integers. *)
Lemma template_args_loop_positional (ast : list template_arg) :
  Forall (fun item => is_positional item = true) ast ->
  forall position d k,
    dict_get (IntKey k) (template_args_loop ast position d) =
    match (if (position <=? k)%Z then nth_error ast (Z.to_nat (k - position))
           else None) with
    | Some item => Some (positional item)
    | None => dict_get (IntKey k) d
    end.
Proof.
  induction 1 as [| item rest Hitem _ IH]; intros position d k; simpl.
  - destruct (position <=? k)%Z; [| reflexivity].
    now destruct (Z.to_nat (k - position)).
  - unfold is_positional in Hitem.
    destruct (named item); [discriminate Hitem |].
    rewrite IH. destruct (Z.leb_spec (position + 1) k) as [Hle | Hgt].
    + replace (position <=? k)%Z with true by (symmetry; apply Z.leb_le; lia).
      replace (Z.to_nat (k - position)) with (S (Z.to_nat (k - (position + 1))))
        by lia.
      simpl. destruct (nth_error rest _); [reflexivity |].
      apply dict_get_set_other. simpl. apply Z.eqb_neq. lia.
    + destruct (Z.leb_spec position k) as [Hle | Hlt].
      * assert (k = position) by lia. subst k.
        rewrite Z.sub_diag. simpl. apply dict_get_set_same.
      * apply dict_get_set_other. simpl. apply Z.eqb_neq. lia.
Qed.

Lemma template_args_nth_positional (ast : list template_arg) (i : nat) :
  dict_get (IntKey (Z.of_nat i + 1)) (template_args ast) =
  option_map positional (nth_error (filter is_positional ast) i).
Proof.
  unfold template_args.
  rewrite (template_args_loop_named_skipped ast 1 [] [] (fun _ => eq_refl)).
  rewrite template_args_loop_positional.
  - replace (1 <=? Z.of_nat i + 1)%Z with true by (symmetry; apply Z.leb_le; lia).
    replace (Z.to_nat (Z.of_nat i + 1 - 1)) with i by lia.
    now destruct (nth_error _ i).
  - apply Forall_forall. intros item Hin. now apply filter_In in Hin.
Qed.

(** X18.  [template_args] numbers the positional arguments from 1 in their
    order, and named arguments take no number: the value under the integer
    key [i + 1] is the value of the positional argument of index [i], and
    there is none beyond the last one. *)
Theorem template_args_positions (ast : list template_arg) (i : nat) :
  dict_get (IntKey (Z.of_nat i + 1)) (template_args ast) =
  option_map positional (nth_error (filter is_positional ast) i).
Proof.
  unfold template_args.
  rewrite (template_args_loop_named_skipped ast 1 [] [] (fun _ => eq_refl)).
  rewrite template_args_loop_positional.
  - replace (1 <=? Z.of_nat i + 1)%Z with true by (symmetry; apply Z.leb_le; lia).
    replace (Z.to_nat (Z.of_nat i + 1 - 1)) with i by lia.
    now destruct (nth_error _ i).
  - apply Forall_forall. intros item Hin. now apply filter_In in Hin.
Qed.

Lemma dict_get_map_values {V W : Type} (f : V -> W) (k : key) (d : dict V) :
  dict_get k (map (fun kv => (fst kv, f (snd kv))) d) = option_map f (dict_get k d).
Proof.
  induction d as [| [k' v] d IH]; simpl; [reflexivity |].
  destruct (key_eqb k k'); [reflexivity | exact IH].
Qed.

(** [template] keeps every argument of the template and adds the name
    under key 0 (which no positional argument has). *)
Theorem template_name_and_arguments (name : string)
    (args : dict (option LinkedText)) :
  dict_get (IntKey 0) (template name (Some args)) = Some (TemplateName name) /\
  (forall k : key,
      k <> IntKey 0 ->
      dict_get k (template name (Some args)) =
      option_map ArgValue (dict_get k args)) /\
  template name None = [(IntKey 0, TemplateName name)].
Proof.
  unfold template. split; [apply dict_get_set_same |]. split; [| reflexivity].
  intros k Hk. rewrite dict_get_set_other.
  - apply (dict_get_map_values ArgValue).
  - destruct (key_eqb k (IntKey 0)) eqn:E; [| reflexivity].
    apply key_eqb_eq in E. contradiction.
Qed.

Lemma template_name_and_arguments_witness :
  dict_get (StrKey "lang")
    (template "term" (Some [(IntKey 1, None); (StrKey "lang", None)]))
  = option_map ArgValue (dict_get (StrKey "lang") [(IntKey 1, None); (StrKey "lang", None)]).
Proof.
  apply (proj1 (proj2 (template_name_and_arguments "term"
                         [(IntKey 1, None); (StrKey "lang", None)]))).
  discriminate.
Defined.

(** X19.  A translation template is read through its first positional
    argument, wherever the named arguments stand: without a positional
    argument there is no edge; when the first one has the text [t] the edge
    goes to [t] in the stripped language of the template, with the relation
    [TranslationOf] and no sense. *)
Theorem translation_template_first_positional (language : string)
    (items : list template_arg) :
  let ast := TranslationTemplate.mk language (template_args items) in
  (filter is_positional items = [] -> translation_template ast = Ok None) /\
  (forall item rest links t,
      filter is_positional items = item :: rest ->
      positional item = Some (LinkedText.mk (Some t) links) ->
      translation_template ast =
      Ok (Some (EdgeInfo.mk (Some (strip language)) t None (Some "TranslationOf")))).
Proof.
  intros ast. unfold translation_template, ast. simpl.
  change (IntKey 1) with (IntKey (Z.of_nat 0 + 1)).
  rewrite template_args_nth_positional. split.
  - intros Hnil. now rewrite Hnil.
  - intros item rest links t Hfirst Hpos. rewrite Hfirst. simpl.
    rewrite Hpos. reflexivity.
Qed.

Lemma translation_template_first_positional_witness :
  translation_template
    (TranslationTemplate.mk " fr"
       (template_args
          [ {| named := Some {| key_ := "sc"; value := None |}; positional := None |};
            positional_arg "eau" []; positional_arg "f" [] ]))
  = Ok (Some (EdgeInfo.mk (Some "fr") "eau" None (Some "TranslationOf"))).
Proof.
  apply (proj2 (translation_template_first_positional " fr"
                  [ {| named := Some {| key_ := "sc"; value := None |};
                       positional := None |};
                    positional_arg "eau" []; positional_arg "f" [] ])
           (positional_arg "eau" []) [positional_arg "f" []] [] "eau");
    reflexivity.
Defined.

(** ** link_template on parsed arguments *)

(** X20.  [{{l|lang|target}}]: for every language text and every non-empty
    target text the LinkedText reads as the target and has the one link
    (lang, target), with no sense and no relation; links inside the two
    arguments are dropped. *)
Theorem link_template_l_two_arguments (self : Semantics)
    (lang target : string) (l1 l2 : list EdgeInfo) :
  target <> "" ->
  link_template self
    {| linktype := "l"; subtypes := None;
       args := template_args [positional_arg lang l1; positional_arg target l2] |}
  = Ok (LinkedText.mk (Some target) [EdgeInfo.mk (Some lang) target None None]).
Proof.
  intros Hne. destruct target as [| c target]; [contradiction |].
  unfold link_template. simpl. reflexivity.
Qed.

Lemma link_template_l_two_arguments_witness :
  link_template example_semantics
    {| linktype := "l"; subtypes := None;
       args := template_args
                 [positional_arg "en" [];
                  positional_arg "mammal" [EdgeInfo.mk (Some "en") "mammal" None None]] |}
  = Ok (LinkedText.mk (Some "mammal") [EdgeInfo.mk (Some "en") "mammal" None None]).
Proof.
  apply link_template_l_two_arguments. discriminate.
Defined.

(** X21.  The hyphens of the affix templates.  With two non-empty
    arguments [a] and [b] and no [lang], [prefix] links to [a-] and [b],
    [suffix] to [a] and [-b], [confix] to [a-] and [-b]; with a third
    argument [c], [confix] links to [a-], [b] and [-c].  Every link is in
    the language of the edition with the relation [DerivedFrom], and the
    text is empty. *)
Theorem link_template_affix_hyphens (self : Semantics) (a b c : string)
    (la lb lc : list EdgeInfo) :
  a <> "" -> b <> "" -> c <> "" ->
  let derived target :=
    EdgeInfo.mk (Some (default_language self)) target None (Some "DerivedFrom") in
  let call linktype items :=
    link_template self
      {| linktype := linktype; subtypes := None; args := template_args items |} in
  call "prefix" [positional_arg a la; positional_arg b lb]
  = Ok (LinkedText.mk (Some "") [derived (a ++ "-"); derived b]) /\
  call "suffix" [positional_arg a la; positional_arg b lb]
  = Ok (LinkedText.mk (Some "") [derived a; derived ("-" ++ b)]) /\
  call "confix" [positional_arg a la; positional_arg b lb]
  = Ok (LinkedText.mk (Some "") [derived (a ++ "-"); derived ("-" ++ b)]) /\
  call "confix" [positional_arg a la; positional_arg b lb; positional_arg c lc]
  = Ok (LinkedText.mk (Some "") [derived (a ++ "-"); derived b; derived ("-" ++ c)]).
Proof.
  intros Ha Hb Hc derived call.
  destruct a as [| a0 a]; [contradiction |].
  destruct b as [| b0 b]; [contradiction |].
  destruct c as [| c0 c]; [contradiction |].
  unfold call, derived, link_template. simpl. repeat split; reflexivity.
Qed.

Lemma link_template_affix_hyphens_witness :
  link_template example_semantics
    {| linktype := "prefix"; subtypes := None;
       args := template_args [positional_arg "un" []; positional_arg "happy" []] |}
  = Ok (LinkedText.mk (Some "")
          [EdgeInfo.mk (Some "en") "un-" None (Some "DerivedFrom");
           EdgeInfo.mk (Some "en") "happy" None (Some "DerivedFrom")]).
Proof.
  apply (proj1 (@link_template_affix_hyphens example_semantics "un" "happy" "x"
                  [] [] [] ltac:(discriminate) ltac:(discriminate)
                  ltac:(discriminate))).
Defined.

(** Reading [k] after reading [k'] gives what reading [k] first gives. *)
Lemma dd_get_then (k k' : key) (d d' : defaultdict) (v : option string) :
  dd_get k' d = (v, d') -> fst (dd_get k d') = fst (dd_get k d).
Proof.
  intros E. rewrite <- (dd_get_after_dd_get k k' d). now rewrite E.
Qed.

(** X31.  [etycomp] tests its argument 2 only: with a non-empty argument 2
    and no argument 1 (absent, or without a value) it raises [TypeError],
    because argument 1 becomes the target of an EdgeInfo and the constructor
    refuses a null target. *)
Theorem link_template_etycomp_without_first_argument (self : Semantics)
    (ast : link_template_ast) :
  linktype ast = "etycomp" ->
  NoDup (map fst (args ast)) ->
  truthy (arg_text ast (IntKey 2)) = true ->
  arg_text ast (IntKey 1) = None ->
  link_template self ast = Raise TypeError.
Proof.
  intros Hname Hnd H2 H1.
  rewrite (arg_text_collected ast _ Hnd) in H2.
  rewrite (arg_text_collected ast _ Hnd) in H1.
  unfold link_template. rewrite Hname.
  destruct (collect_args (args ast) [] []) as [d links]. simpl fst in H1, H2.
  unfold and_arg. simpl.
  destruct (dd_get (IntKey 2) d) as [v2 d1] eqn:E2. simpl in H2. rewrite H2.
  destruct (dd_get (StrKey "lang1") d1) as [l1 d2] eqn:E3.
  destruct (dd_get (StrKey "lang2") d2) as [l2 d3] eqn:E4.
  destruct (dd_get (StrKey "lang1") d3) as [l1' d4] eqn:E5.
  assert (Hfirst : fst (dd_get (IntKey 1) d4) = None).
  { rewrite (dd_get_then (IntKey 1) _ _ E5), (dd_get_then (IntKey 1) _ _ E4),
      (dd_get_then (IntKey 1) _ _ E3), (dd_get_then (IntKey 1) _ _ E2).
    exact H1. }
  destruct (dd_get (IntKey 1) d4) as [a1 d5]. simpl in Hfirst. subst a1.
  reflexivity.
Qed.

Lemma link_template_etycomp_without_first_argument_witness :
  link_template example_semantics
    {| linktype := "etycomp"; subtypes := None;
       args := [(StrKey "lang1", Some (LinkedText.mk (Some "en") []));
                (IntKey 2, Some (LinkedText.mk (Some "bird") []))] |}
  = Raise TypeError.
Proof.
  apply link_template_etycomp_without_first_argument.
  - reflexivity.
  - repeat constructor; simpl; intuition discriminate.
  - reflexivity.
  - reflexivity.
Defined.

(** ** Link entries and etymologies *)

Lemma extend_links_concat (items : list LinkedText) :
  forall links,
    extend_links links items =
    (links ++ List.concat (map LinkedText.links items))%list.
Proof.
  unfold extend_links.
  induction items as [| x items IH]; intros links; simpl.
  - now rewrite app_nil_r.
  - rewrite IH. now rewrite app_assoc.
Qed.

(** X22.  [link_entry] returns the links of its items in their order, all
    of them; with a sense, every link carries that sense and keeps its
    language, target and relation; without one, the links are unchanged. *)
Theorem link_entry_stamps_sense (sub_links : list LinkedText)
    (sense : option string) :
  let all := List.concat (map LinkedText.links sub_links) in
  let out := link_entry (LinkEntry.mk (Some sub_links) sense) in
  map (fun e => (EdgeInfo.language e, EdgeInfo.target e, EdgeInfo.rel e)) out =
  map (fun e => (EdgeInfo.language e, EdgeInfo.target e, EdgeInfo.rel e)) all /\
  (forall s, sense = Some s -> Forall (fun e => EdgeInfo.sense e = Some s) out) /\
  (sense = None -> out = all).
Proof.
  intros all out. unfold out, link_entry. simpl.
  rewrite extend_links_concat. simpl. fold all.
  destruct sense as [s |]; repeat split; try discriminate.
  - rewrite map_map. reflexivity.
  - intros s' Hs. injection Hs as <-. apply Forall_forall.
    intros e He. apply in_map_iff in He as [e' [<- _]]. reflexivity.
Qed.

Lemma link_entry_stamps_sense_witness :
  Forall (fun e => EdgeInfo.sense e = Some "animal")
    (link_entry
       (LinkEntry.mk
          (Some [LinkedText.mk (Some "hound")
                   [EdgeInfo.mk (Some "en") "hound" None None]])
          (Some "animal"))).
Proof.
  apply (proj1 (proj2 (link_entry_stamps_sense
                         [LinkedText.mk (Some "hound")
                            [EdgeInfo.mk (Some "en") "hound" None None]]
                         (Some "animal"))) "animal").
  reflexivity.
Defined.

(** [etyl_template_and_link] keeps the text of the link and gives
    every EdgeInfo of the link the stripped language of the [etyl] template,
    whatever language it had; targets, senses and relations are kept in
    order. *)
Theorem etyl_template_and_link_language (etyl_language : string)
    (link : LinkedText) :
  let out := etyl_template_and_link etyl_language link in
  LinkedText.text out = LinkedText.text link /\
  Forall (fun e => EdgeInfo.language e = Some (strip etyl_language))
    (LinkedText.links out) /\
  map (fun e => (EdgeInfo.target e, EdgeInfo.sense e, EdgeInfo.rel e))
    (LinkedText.links out) =
  map (fun e => (EdgeInfo.target e, EdgeInfo.sense e, EdgeInfo.rel e))
    (LinkedText.links link).
Proof.
  unfold etyl_template_and_link. simpl. repeat split.
  - apply Forall_forall. intros e He.
    apply in_map_iff in He as [e' [<- _]]. reflexivity.
  - rewrite map_map. reflexivity.
Qed.

(** ** German translation sections *)

Lemma to_german_senses_map (self : Semantics) (target : string)
    (senses : list string) :
  forall links,
    to_german_senses self target senses links =
    Ok (links ++
        map (fun s =>
               EdgeInfo.mk (Some (default_language self)) target
                 (if s =? "" then None else Some s) (Some "TranslationOf"))
          senses)%list.
Proof.
  induction senses as [| s senses IH]; intros links; simpl.
  - now rewrite app_nil_r.
  - rewrite IH. now rewrite <- app_assoc.
Qed.

(** X23.  [to_german] gives one edge for each source sense, in order, all
    to the same target in the language of the edition with the relation
    [TranslationOf]; an empty sense becomes a null sense; the target gets
    the first target sense in parentheses when there is one. *)
Theorem to_german_one_edge_per_sense (self : Semantics) (ast : ToGerman.ast) :
  ToGerman.target_sense ast <> Some [] ->
  let target :=
    match ToGerman.target_sense ast with
    | Some (s0 :: _) => ToGerman.target ast ++ " (" ++ s0 ++ ")"
    | _ => ToGerman.target ast
    end in
  to_german self ast =
  Ok (map (fun s =>
             EdgeInfo.mk (Some (default_language self)) target
               (if s =? "" then None else Some s) (Some "TranslationOf"))
        (ToGerman.sense ast)).
Proof.
  intros Hts target. unfold to_german.
  destruct (ToGerman.target_sense ast) as [[| s0 ts] |]; [congruence | |];
    simpl; rewrite to_german_senses_map; subst target; reflexivity.
Qed.

Lemma to_german_one_edge_per_sense_witness :
  to_german example_semantics (ToGerman.mk [""; "2"] "Hund" (Some ["1"; "3"])) =
  Ok [EdgeInfo.mk (Some "en") "Hund (1)" None (Some "TranslationOf");
      EdgeInfo.mk (Some "en") "Hund (1)" (Some "2") (Some "TranslationOf")].
Proof.
  apply (@to_german_one_edge_per_sense example_semantics
           (ToGerman.mk [""; "2"] "Hund" (Some ["1"; "3"]))).
  discriminate.
Defined.

Lemma from_german_senses_raises (lang : string) (target : option string)
    (senses : list string) :
  forall links e,
    from_german_senses lang target senses links = Raise e -> e = TypeError.
Proof.
  induction senses as [| s senses IH]; intros links e; simpl; [discriminate |].
  destruct target as [tg |]; simpl; [apply IH | congruence].
Qed.

Lemma from_german_tr_raises (lang : string) (tr : list TrBase.ast) :
  forall links e, from_german_tr lang tr links = Raise e -> e = TypeError.
Proof.
  induction tr as [| t tr IH]; intros links e; simpl; [discriminate |].
  destruct (TrBase.num t) as [senses |]; [| congruence].
  destruct (from_german_senses lang _ senses links) as [links' | e'] eqn:Es; simpl.
  - apply IH.
  - intros H. injection H as <-. now apply from_german_senses_raises in Es.
Qed.

(** X24.  A translation without sense numbers (the bracketed numbers are
    optional in the grammar) makes [from_german] raise [TypeError], wherever
    it stands in the line. *)
Theorem from_german_without_sense_raises (lang : string) (tr : list TrBase.ast) :
  (exists t, In t tr /\ TrBase.num t = None) ->
  from_german lang tr = Raise TypeError.
Proof.
  unfold from_german. generalize (@nil EdgeInfo).
  induction tr as [| t tr IH]; intros links [bad [Hin Hbad]].
  - destruct Hin.
  - simpl. destruct (TrBase.num t) as [senses |] eqn:Hnum; [| reflexivity].
    destruct (from_german_senses lang _ senses links) as [links' | e] eqn:Es; simpl.
    + apply IH. exists bad. split; [| exact Hbad].
      destruct Hin as [<- | Hin]; [congruence | exact Hin].
    + now rewrite (from_german_senses_raises _ _ _ _ Es).
Qed.

Lemma from_german_without_sense_raises_witness :
  from_german "fr"
    [TrBase.mk (Some ["1"]) (Some "chien") None; TrBase.mk None (Some "clebs") None]
  = Raise TypeError.
Proof.
  apply from_german_without_sense_raises.
  exists (TrBase.mk None (Some "clebs") None). split.
  - right. left. reflexivity.
  - reflexivity.
Defined.

Lemma from_german_senses_map (lang target : string) (senses : list string) :
  forall links,
    from_german_senses lang (Some target) senses links =
    Ok (links ++
        map (fun s => EdgeInfo.mk (Some lang) target (Some s) (Some "TranslationOf"))
          senses)%list.
Proof.
  induction senses as [| s senses IH]; intros links; simpl.
  - now rewrite app_nil_r.
  - rewrite IH. now rewrite <- app_assoc.
Qed.

(** X25.  When every translation of a [from_german] line has sense numbers
    and a target, the line gives, for each translation in order, one edge
    for each of its senses, in the language of the line, to the original
    spelling when there is one and to the target otherwise, with the
    relation [TranslationOf]. *)
Theorem from_german_edges (lang : string) (tr : list TrBase.ast) :
  Forall (fun t => TrBase.num t <> None /\
                   (TrBase.original t <> None \/ TrBase.target t <> None)) tr ->
  from_german lang tr =
  Ok (flat_map
        (fun t =>
           map (fun s =>
                  EdgeInfo.mk (Some lang)
                    (match TrBase.original t, TrBase.target t with
                     | Some o, _ => o
                     | None, Some tg => tg
                     | None, None => ""
                     end)
                    (Some s) (Some "TranslationOf"))
             (match TrBase.num t with Some senses => senses | None => [] end))
        tr).
Proof.
  unfold from_german. intros Hall.
  enough (Hgen : forall links,
             from_german_tr lang tr links =
             Ok (links ++
                 flat_map
                   (fun t =>
                      map (fun s =>
                             EdgeInfo.mk (Some lang)
                               (match TrBase.original t, TrBase.target t with
                                | Some o, _ => o
                                | None, Some tg => tg
                                | None, None => ""
                                end)
                               (Some s) (Some "TranslationOf"))
                        (match TrBase.num t with
                         | Some senses => senses
                         | None => []
                         end))
                   tr)%list) by apply Hgen.
  induction Hall as [| t tr [Hnum Htg] _ IH]; intros links; simpl.
  - now rewrite app_nil_r.
  - destruct (TrBase.num t) as [senses |]; [| congruence].
    destruct (TrBase.original t) as [o |].
    + rewrite from_german_senses_map. simpl. rewrite IH. now rewrite app_assoc.
    + destruct (TrBase.target t) as [tg |]; [| destruct Htg; congruence].
      rewrite from_german_senses_map. simpl. rewrite IH. now rewrite app_assoc.
Qed.

Lemma from_german_edges_witness :
  from_german "fr"
    [TrBase.mk (Some ["1"; "2"]) (Some "chien") None;
     TrBase.mk (Some ["3"]) (Some "sobaka") (Some "собака")]
  = Ok [EdgeInfo.mk (Some "fr") "chien" (Some "1") (Some "TranslationOf");
        EdgeInfo.mk (Some "fr") "chien" (Some "2") (Some "TranslationOf");
        EdgeInfo.mk (Some "fr") "собака" (Some "3") (Some "TranslationOf")].
Proof.
  apply (@from_german_edges "fr"
           [TrBase.mk (Some ["1"; "2"]) (Some "chien") None;
            TrBase.mk (Some ["3"]) (Some "sobaka") (Some "собака")]).
  repeat constructor; simpl; try discriminate; (left + right); discriminate.
Defined.

(** X26.  [translation_section_de] returns exactly the items of its list
    that are EdgeInfo objects, all of them and in their order; every other
    item (a string of the table markup, [None], a list) is dropped. *)
Theorem translation_section_de_keeps_edge_infos (links : list ast_value) :
  map VEdgeInfo (translation_section_de links) =
  filter (fun item => match item with VEdgeInfo _ => true | _ => false end) links.
Proof.
  induction links as [| item rest IH]; simpl; [reflexivity |].
  destruct item; simpl; try exact IH. now rewrite IH.
Qed.

(** ** German definition sections *)

(** X27.  A German definition section must open with a numbered line: when
    the first line is not numbered with digits, [definition_section_de]
    raises, [IndexError] for a line lettered [a] (there is no previous line
    to take the head text from) and [TypeError] otherwise (there is no
    current sense). *)
Theorem definition_section_de_first_line (item : defn_line) (rest : list defn_line) :
  isdigit (line_num item) = false ->
  definition_section_de (item :: rest) =
  Raise (if line_num item =? "a" then IndexError else TypeError).
Proof.
  intros Hd. unfold definition_section_de. simpl. rewrite Hd.
  destruct (String.eqb_spec (line_num item) "a") as [Ha | Hna].
  - rewrite Ha. reflexivity.
  - destruct (isalpha (line_num item)); reflexivity.
Qed.

Lemma definition_section_de_first_line_witness :
  definition_section_de
    [{| line_num := "a"; line_sense := LinkedText.mk (Some "facet") [] |}]
  = Raise IndexError
  /\
  definition_section_de
    [{| line_num := "-"; line_sense := LinkedText.mk (Some "note") [] |}]
  = Raise TypeError.
Proof.
  split.
  - apply (@definition_section_de_first_line
             {| line_num := "a"; line_sense := LinkedText.mk (Some "facet") [] |} []).
    reflexivity.
  - apply (@definition_section_de_first_line
             {| line_num := "-"; line_sense := LinkedText.mk (Some "note") [] |} []).
    reflexivity.
Defined.

Lemma list_pop_length {A : Type} (l l' : list A) (x : A) :
  list_pop l = Ok (x, l') -> List.length l = S (List.length l').
Proof.
  unfold list_pop. destruct (rev l) as [| y r] eqn:Hr; [discriminate |].
  intros H. injection H as <- <-.
  rewrite <- (rev_involutive l), Hr. simpl.
  rewrite length_app, !length_rev. simpl. lia.
Qed.

Lemma definition_section_de_loop_length (ast : list defn_line) :
  forall links sense head_text out,
    definition_section_de_loop ast links sense head_text = Ok out ->
    (List.length out + List.length (filter is_first_subsense ast)
     = List.length links + List.length ast)%nat.
Proof.
  induction ast as [| item rest IH]; intros links sense head_text out H.
  - simpl in H. injection H as <-. simpl. lia.
  - cbn [definition_section_de_loop] in H. cbn [filter].
    unfold is_first_subsense at 1.
    destruct (isdigit (line_num item)) eqn:Hd.
    + assert (Hna : (line_num item =? "a") = false).
      { destruct (String.eqb_spec (line_num item) "a") as [Ha | Hna];
          [rewrite Ha in Hd; discriminate Hd | reflexivity]. }
      rewrite Hna. simpl in H.
      destruct (LinkedText.text (line_sense item)); [| discriminate H].
      simpl in H. apply IH in H. rewrite length_app in H. simpl in *. lia.
    + destruct (isalpha (line_num item)) eqn:Hal.
      * destruct (line_num item =? "a") eqn:Ha.
        -- destruct (list_pop links) as [[link links'] |] eqn:Hpop;
             [| discriminate H].
           apply list_pop_length in Hpop. simpl in H.
           destruct (LinkedText.text link); [| discriminate H]. simpl in H.
           destruct sense as [cs |]; [| discriminate H]. simpl in H.
           destruct (LinkedText.text (line_sense item)); [| discriminate H].
           simpl in H. apply IH in H. rewrite length_app in H. simpl in *. lia.
        -- simpl in H. destruct sense as [cs |]; [| discriminate H]. simpl in H.
           destruct (LinkedText.text (line_sense item)); [| discriminate H].
           simpl in H. apply IH in H. rewrite length_app in H. simpl in *. lia.
      * assert (Hna : (line_num item =? "a") = false).
        { destruct (String.eqb_spec (line_num item) "a") as [Ha | Hna];
            [rewrite Ha in Hal; discriminate Hal | reflexivity]. }
        rewrite Hna. simpl in H.
        destruct sense as [cs |]; [| discriminate H]. simpl in H.
        destruct (LinkedText.text (line_sense item)); [| discriminate H].
        simpl in H. apply IH in H. rewrite length_app in H. simpl in *. lia.
Qed.

(** X28.  Every line lettered [a] replaces the line before it: what
    [definition_section_de] returns has one LinkedText for each line, less
    one for each line lettered [a]. *)
Theorem definition_section_de_length (ast : list defn_line)
    (out : list LinkedText) :
  definition_section_de ast = Ok out ->
  (List.length out + List.length (filter is_first_subsense ast)
   = List.length ast)%nat.
Proof.
  intros H. apply definition_section_de_loop_length in H. exact H.
Qed.

Lemma definition_section_de_length_witness :
  (List.length
     [LinkedText.mk (Some "(1a) meaning one facet") [];
      LinkedText.mk (Some "(2) meaning two") []]
   + List.length
       (filter is_first_subsense
          [{| line_num := "1"; line_sense := LinkedText.mk (Some "meaning one") [] |};
           {| line_num := "a"; line_sense := LinkedText.mk (Some "facet") [] |};
           {| line_num := "2"; line_sense := LinkedText.mk (Some "meaning two") [] |}])
   = 3)%nat.
Proof.
  exact (@definition_section_de_length
           [{| line_num := "1"; line_sense := LinkedText.mk (Some "meaning one") [] |};
            {| line_num := "a"; line_sense := LinkedText.mk (Some "facet") [] |};
            {| line_num := "2"; line_sense := LinkedText.mk (Some "meaning two") [] |}]
           [LinkedText.mk (Some "(1a) meaning one facet") [];
            LinkedText.mk (Some "(2) meaning two") []]
           eq_refl).
Defined.

Lemma definition_section_de_loop_numbered (ast : list defn_line) :
  Forall (fun item => isdigit (line_num item) = true /\
                      LinkedText.text (line_sense item) <> None) ast ->
  forall links sense head_text,
    definition_section_de_loop ast links sense head_text =
    Ok (links ++
        map (fun item =>
               LinkedText.mk
                 (Some ("(" ++ line_num item ++ ") "
                        ++ match LinkedText.text (line_sense item) with
                           | Some t => t
                           | None => ""
                           end)%string)
                 (LinkedText.links (line_sense item)))
          ast)%list.
Proof.
  induction 1 as [| item rest [Hd Ht] _ IH]; intros links sense head_text.
  - simpl. now rewrite app_nil_r.
  - cbn [definition_section_de_loop]. rewrite Hd. simpl.
    destruct (LinkedText.text (line_sense item)) as [t |]; [| congruence].
    simpl. rewrite IH, <- app_assoc. simpl.
    now rewrite str_append_empty_r, str_append_assoc.
Qed.

(** X29.  A German definition section of numbered lines only: every line
    gives one LinkedText, in order, with its own links and with its text
    prefixed by its number in parentheses. *)
Theorem definition_section_de_numbered_lines (ast : list defn_line) :
  Forall (fun item => isdigit (line_num item) = true /\
                      LinkedText.text (line_sense item) <> None) ast ->
  definition_section_de ast =
  Ok (map (fun item =>
             LinkedText.mk
               (Some ("(" ++ line_num item ++ ") "
                      ++ match LinkedText.text (line_sense item) with
                         | Some t => t
                         | None => ""
                         end))
               (LinkedText.links (line_sense item)))
        ast).
Proof.
  intros Hall. unfold definition_section_de.
  now rewrite definition_section_de_loop_numbered.
Qed.

Lemma definition_section_de_numbered_lines_witness :
  definition_section_de
    [{| line_num := "1"; line_sense := LinkedText.mk (Some "ein Tier") [] |};
     {| line_num := "2"; line_sense := LinkedText.mk (Some "ein Mensch") [] |}]
  = Ok [LinkedText.mk (Some "(1) ein Tier") [];
        LinkedText.mk (Some "(2) ein Mensch") []].
Proof.
  apply (@definition_section_de_numbered_lines
           [{| line_num := "1"; line_sense := LinkedText.mk (Some "ein Tier") [] |};
            {| line_num := "2"; line_sense := LinkedText.mk (Some "ein Mensch") [] |}]).
  repeat constructor; discriminate.
Defined.

Lemma is_digit_stripped (c : ascii) :
  is_digit c = true ->
  str_contains (String c EmptyString) "()0123456789 " = true.
Proof.
  destruct c as [[] [] [] [] [] [] [] []]; intros H; vm_compute in H;
    try discriminate H; vm_compute; reflexivity.
Qed.

Lemma lstrip_chars_digits (n r : string) :
  all_digits n = true ->
  lstrip_chars "()0123456789 " (n ++ r) = lstrip_chars "()0123456789 " r.
Proof.
  induction n as [| c n IH]; intros Hn; [reflexivity |].
  simpl in Hn. apply andb_true_iff in Hn as [Hc Hn].
  cbn [append lstrip_chars]. rewrite (is_digit_stripped c Hc). now apply IH.
Qed.

(** X30.  A numbered line followed by its first sub-sense: the line
    lettered [a] takes the place of the numbered line.  The result is one
    LinkedText, numbered with the digit and the letter, whose text is the
    text of the numbered line (less leading digits, parentheses and spaces),
    a space and the text of the lettered line; its links are those of the
    lettered line only. *)
Theorem definition_section_de_first_subsense (n t1 t2 : string)
    (k1 k2 : list EdgeInfo) :
  isdigit n = true ->
  definition_section_de
    [{| line_num := n; line_sense := LinkedText.mk (Some t1) k1 |};
     {| line_num := "a"; line_sense := LinkedText.mk (Some t2) k2 |}]
  = Ok [LinkedText.mk
          (Some ("(" ++ n ++ "a) " ++ lstrip_chars "()0123456789 " t1 ++ " " ++ t2))
          k2].
Proof.
  intros Hd. unfold definition_section_de.
  cbn [definition_section_de_loop line_num line_sense]. rewrite Hd.
  cbn [bind LinkedText.str_add LinkedText.text LinkedText.links app].
  change (isdigit "a") with false. change (isalpha "a") with true.
  change ("a" =? "a") with true.
  cbn [list_pop rev app bind LinkedText.text LinkedText.str_add].
  assert (Hn : all_digits n = true) by (destruct n; [discriminate Hd | exact Hd]).
  assert (Hstrip :
            lstrip_chars "()0123456789 " (((("(" ++ n) ++ ") ") ++ "") ++ t1)
            = lstrip_chars "()0123456789 " t1).
  { rewrite str_append_empty_r, !str_append_assoc.
    change ("(" ++ n ++ ") " ++ t1) with (String "(" (n ++ ") " ++ t1)).
    cbn [lstrip_chars]. change (str_contains "(" "()0123456789 ") with true.
    cbv iota. rewrite (lstrip_chars_digits n _ Hn). reflexivity. }
  rewrite Hstrip. do 3 f_equal.
  now rewrite !str_append_assoc.
Qed.

Lemma definition_section_de_first_subsense_witness :
  definition_section_de
    [{| line_num := "1"; line_sense := LinkedText.mk (Some "meaning one") [] |};
     {| line_num := "a"; line_sense := LinkedText.mk (Some "facet") [] |}]
  = Ok [LinkedText.mk (Some "(1a) meaning one facet") []].
Proof.
  apply (@definition_section_de_first_subsense "1" "meaning one" "facet" [] []).
  reflexivity.
Defined.
